(** * The e-mail notification processor

    A shallow embedding of [NotificationsEmailProcessor.ts]
    (plugins/notifications-backend-module-email) and the properties of
    its recipient resolution, rendering and dispatch.

    The processor talks to four collaborators that live outside the
    file: the cache, the auth service, the catalog and the mail
    transport.  Their answers are taken from an environment [Env]; every
    interaction is recorded in a chronological [trace], so that "the
    directory was (not) queried" and "a send was (not) attempted" are
    statements about that trace. *)

From Stdlib Require Import String Ascii List ZArith Lia.
From stdpp Require Import gmap strings list.

Open Scope string_scope.
Open Scope Z_scope.

(** ** JavaScript values *)

(** The line feed of the ['\n'] escapes. *)
Definition LF : string := String (ascii_of_nat 10) EmptyString.

(** A string used as a condition: only the empty string is falsy. *)
Definition truthy (s : string) : bool := negb (String.eqb s "").

(** [if (x)] on an optional string: [undefined] and [''] are falsy. *)
Definition truthy_opt (o : option string) : bool :=
  match o with
  | Some s => truthy s
  | None => false
  end.

(** [Array.prototype.join]. *)
Definition join (sep : string) (parts : list string) : string :=
  String.concat sep parts.

(** A thrown value. *)
Record JsError := mkJsError { err_name : string; err_message : string }.

(** [new Error(msg)]. *)
Definition Error (msg : string) : JsError :=
  {| err_name := "Error"; err_message := msg |}.

(** [new TypeError(msg)]. *)
Definition TypeError (msg : string) : JsError :=
  {| err_name := "TypeError"; err_message := msg |}.

(** [`${e}`], that is [Error.prototype.toString]. *)
Definition error_toString (e : JsError) : string :=
  if String.eqb (err_name e) "" then err_message e
  else if String.eqb (err_message e) "" then err_name e
  else err_name e ++ ": " ++ err_message e.

(** A JavaScript number, as far as [Number.isFinite] tells numbers
    apart: a finite one (shown by an integer), [NaN], or an infinity. *)
Inductive JsNumber :=
| Finite (z : Z)
| NaN
| Infinity (negative : bool).

Coercion Finite : Z >-> JsNumber.

(** [Number.isFinite(x)]. *)
Definition is_finite (x : JsNumber) : bool :=
  match x with
  | Finite _ => true
  | _ => false
  end.

(** The value of [notification.user] at run time.  Its declared type is
    [string | null]; [JsUndefined] is the field left out. *)
Inductive JsUser :=
| JsNull
| JsUndefined
| JsRef (ref : string).

#[global] Instance JsUser_eq_dec : EqDecision JsUser.
Proof. solve_decision. Defined.

(** [notification.user === null]. *)
Definition is_null (u : JsUser) : bool :=
  match u with
  | JsNull => true
  | _ => false
  end.

(** [`${entityRef}`]. *)
Definition user_toString (u : JsUser) : string :=
  match u with
  | JsNull => "null"
  | JsUndefined => "undefined"
  | JsRef ref => ref
  end.

(** [new Set(xs)] spread back into an array: the first occurrence of
    every element, in order. *)
Fixpoint js_set_from {A} `{EqDecision A} (seen : list A) (xs : list A) : list A :=
  match xs with
  | [] => []
  | x :: xs' =>
      if decide (x ∈ seen) then js_set_from seen xs'
      else x :: js_set_from (x :: seen) xs'
  end.

Definition js_set {A} `{EqDecision A} (xs : list A) : list A := js_set_from [] xs.

(** lodash [compact] on optional strings: drops [undefined] and ['']. *)
Fixpoint compact (xs : list (option string)) : list string :=
  match xs with
  | [] => []
  | Some s :: xs' => if truthy s then s :: compact xs' else compact xs'
  | None :: xs' => compact xs'
  end.

(** ** Data model *)

Record NotificationPayload := {
  title : string;
  description : option string;
  link : option string
}.

Record Notification := {
  id : string;
  user : JsUser;
  payload : NotificationPayload
}.

(** [options.recipients.type]. *)
Record NotificationSendOptions := {
  recipients_type : string
}.

(** [Mail.Options], the fields the processor sets. *)
Record MailOptions := {
  mail_from : string;
  mail_to : option string;
  mail_subject : option string;
  mail_html : option string;
  mail_text : option string;
  mail_replyTo : option string
}.

(** [{ ...options, to: email }]. *)
Definition with_to (options : MailOptions) (email : string) : MailOptions :=
  {| mail_from := mail_from options;
     mail_to := Some email;
     mail_subject := mail_subject options;
     mail_html := mail_html options;
     mail_text := mail_text options;
     mail_replyTo := mail_replyTo options |}.

Record UserProfile := { email : option string }.

(** [UserEntity], down to [spec.profile?.email]. *)
Record UserEntity := { spec_profile : option UserProfile }.

(** [entity.spec.profile?.email]. *)
Definition profile_email (entity : UserEntity) : option string :=
  match spec_profile entity with
  | Some profile => email profile
  | None => None
  end.

(** [NotificationTemplateRenderer]: every accessor is optional. *)
Record NotificationTemplateRenderer := {
  getSubject : option (Notification -> option string);
  getHtml : option (Notification -> option string);
  getText : option (Notification -> option string)
}.

(** The [transport] section of the configuration. *)
Record TransportConfig := { transport : option string }.

(** The [broadcastConfig] section of the configuration. *)
Record BroadcastConfig := {
  receiver : option string;
  receiverEmails : option (list string)
}.

(** The fields the constructor fills in. *)
Record Processor := {
  transportConfig : TransportConfig;
  broadcastConfig : option BroadcastConfig;
  sender : string;
  replyTo : option string;
  cacheTtl : Z;
  concurrencyLimit : JsNumber;
  throttleInterval : JsNumber;
  templateRenderer : option NotificationTemplateRenderer
}.

(** ** Effects *)

(** The transport handle built by one of the [create*Transport]
    factories. *)
Record Transporter := { transport_name : string }.

(** What the processor does to its collaborators, in order. *)
Inductive Event :=
| CacheGet (key : string)
| CacheSet (key : string) (value : list string) (ttl : Z)
| AuthOwnCredentials
| AuthPluginToken (targetPluginId : string)
| CatalogGetEntities
| CatalogGetEntityByRef (entityRef : JsUser)
| TransportSendMail (options : MailOptions)
| LoggerError (message : string)
| LoggerInfo (message : string).

(** A cached value and the instant at which it stops being served. *)
Record CacheEntry := {
  entry_value : list string;
  entry_expires : Z
}.

(** The mutable part: the wall clock in milliseconds, the cache object
    handed to the constructor (if any), the memoized [this.transporter]
    and the interactions so far. *)
Record State := {
  clock : Z;
  cache : option (gmap string CacheEntry);
  transporter : option Transporter;
  trace : list Event
}.

Definition emit_event (ev : Event) (s : State) : State :=
  {| clock := clock s; cache := cache s; transporter := transporter s;
     trace := trace s ++ [ev] |}.

Definition set_cache (store : gmap string CacheEntry) (s : State) : State :=
  {| clock := clock s; cache := Some store; transporter := transporter s;
     trace := trace s |}.

Definition set_transporter (t : Transporter) (s : State) : State :=
  {| clock := clock s; cache := cache s; transporter := Some t;
     trace := trace s |}.

(** Time passing between two calls. *)
Definition advance (d : Z) (s : State) : State :=
  {| clock := clock s + d; cache := cache s; transporter := transporter s;
     trace := trace s |}.

(** The outcome of an [await]: a value or a thrown error. *)
Inductive Result (A : Type) :=
| Ok (a : A)
| Throw (e : JsError).
Arguments Ok {A} a.
Arguments Throw {A} e.

(** An [async] method: it runs on a state, and what it did to the state
    stays done when it throws. *)
Definition M (A : Type) : Type := State -> Result A * State.

Definition ret {A} (a : A) : M A := fun s => (Ok a, s).

Definition throw {A} (e : JsError) : M A := fun s => (Throw e, s).

Definition bind {A B} (m : M A) (k : A -> M B) : M B :=
  fun s =>
    match m s with
    | (Ok a, s') => k a s'
    | (Throw e, s') => (Throw e, s')
    end.

(** [try { body } catch (e) { handler }]. *)
Definition try_catch {A} (body : M A) (handler : JsError -> M A) : M A :=
  fun s =>
    match body s with
    | (Ok a, s') => (Ok a, s')
    | (Throw e, s') => handler e s'
    end.

Definition emit (ev : Event) : M unit := fun s => (Ok tt, emit_event ev s).

(** The answer of a collaborator, read off the clock. *)
Definition ask {A} (answer : Z -> Result A) : M A := fun s => (answer (clock s), s).

Declare Scope proc_scope.
Delimit Scope proc_scope with proc.
Notation "x <- m ;; k" := (bind m (fun x => k))
  (at level 100, m at next level, right associativity) : proc_scope.
Notation "m ;;; k" := (bind m (fun _ => k))
  (at level 100, right associativity) : proc_scope.
Open Scope proc_scope.

(** An [async] call that awaits once.  Its first segment runs when the
    call is made, up to the [await]; it returns the second segment,
    which runs when the awaited promise has settled.  Other calls may
    run between the two. *)
Definition Async : Type := M (M unit).

(** The outcome of [Promise.all] once every call has settled: the first
    rejection, if there was one. *)
Definition settled (rejection : option JsError) : M unit :=
  match rejection with
  | Some e => throw e
  | None => ret tt
  end.

(** A rejection does not replace an earlier one. *)
Definition first_rejection (rejection : option JsError) (e : JsError)
  : option JsError :=
  match rejection with
  | Some earlier => Some earlier
  | None => Some e
  end.

(** The event loop under [Promise.all]: [waiting] are the calls that
    have not started yet, [inflight] the second segments of those that
    have.  At each turn the next number of [picks] chooses, among all of
    them, the one that runs; without a number the first one runs.  Every
    call is started and settled once, in an order that is the event
    loop's. *)
Fixpoint settle_all (fuel : nat) (picks : list nat) (waiting : list Async)
    (inflight : list (M unit)) (rejection : option JsError) : M unit :=
  match fuel with
  | O => settled rejection
  | S fuel' =>
      let k := Nat.modulo (hd 0%nat picks) (length waiting + length inflight) in
      match waiting !! k with
      | Some call =>
          fun s =>
            match call s with
            | (Ok rest, s') =>
                settle_all fuel' (tl picks) (delete k waiting)
                  (inflight ++ [rest])%list rejection s'
            | (Throw e, s') =>
                settle_all fuel' (tl picks) (delete k waiting) inflight
                  (first_rejection rejection e) s'
            end
      | None =>
          match inflight !! (k - length waiting)%nat with
          | Some rest =>
              fun s =>
                match rest s with
                | (Ok _, s') =>
                    settle_all fuel' (tl picks) waiting
                      (delete (k - length waiting)%nat inflight) rejection s'
                | (Throw e, s') =>
                    settle_all fuel' (tl picks) waiting
                      (delete (k - length waiting)%nat inflight)
                      (first_rejection rejection e) s'
                end
          | None => settled rejection
          end
      end
  end.

(** [await Promise.all(calls)]: two turns for each call are enough to
    start and settle them all. *)
Definition promise_all (picks : list nat) (calls : list Async) : M unit :=
  settle_all (2 * length calls) picks calls [] None.

(** Modelled from the spec: the configuration reader ([Config] of
    @backstage/config) is not in the source file.  Its table marks the
    keys read with [getString] as required: reading one that is unset
    throws, where the [getOptional*] readers give [undefined]. *)
Definition getString (section key : string) (value : option string) : M string :=
  match value with
  | Some v => ret v
  | None =>
      throw (Error ("Missing required config value at '" ++ section ++ "." ++ key ++ "'"))
  end.

(** Modelled from the spec: the cache storage engine ([CacheService]) is
    not in the source file.  [get] gives the value stored under the key
    until its time-to-live has elapsed, [undefined] afterwards or when
    nothing was stored; it does not throw. *)
Definition store_get (now : Z) (store : gmap string CacheEntry) (key : string)
  : option (list string) :=
  match store !! key with
  | Some entry =>
      if now <? entry_expires entry then Some (entry_value entry) else None
  | None => None
  end.

(** Modelled from the spec: [set] of the cache storage engine, which
    keeps the value for [ttl] milliseconds from now. *)
Definition store_set (now : Z) (store : gmap string CacheEntry) (key : string)
    (value : list string) (ttl : Z) : gmap string CacheEntry :=
  <[key := {| entry_value := value; entry_expires := now + ttl |}]> store.

(** [await this.cache?.get<string[]>(key)]. *)
Definition cache_get (key : string) : M (option (list string)) :=
  fun s =>
    match cache s with
    | Some store => (Ok (store_get (clock s) store key), emit_event (CacheGet key) s)
    | None => (Ok None, s)
    end.

(** [await this.cache?.set(key, value, { ttl })]. *)
Definition cache_set (key : string) (value : list string) (ttl : Z) : M unit :=
  fun s =>
    match cache s with
    | Some store =>
        (Ok tt,
         emit_event (CacheSet key value ttl)
           (set_cache (store_set (clock s) store key value ttl) s))
    | None => (Ok tt, s)
    end.

(** The collaborators' answers.  Each may depend on the time of the
    call; a [Throw] is a rejected promise.  [interleaving] is the order
    in which the event loop runs the sends of one dispatch (the [picks]
    of [settle_all]): it stands for the timers of the throttle and the
    arrival of the transport's answers. *)
Record Env := {
  getOwnServiceCredentials : Z -> Result string;
  getPluginRequestToken : string -> string -> Z -> Result string;
  getEntities : string -> Z -> Result (list UserEntity);
  getEntityByRef : JsUser -> string -> Z -> Result (option UserEntity);
  createSmtpTransport : TransportConfig -> Z -> Result Transporter;
  createSesTransport : TransportConfig -> Z -> Result Transporter;
  createSendmailTransport : TransportConfig -> Z -> Result Transporter;
  transporter_sendMail : Transporter -> MailOptions -> Z -> Result unit;
  interleaving : Z -> list nat
}.

(** ** The processor's methods *)

Section Methods.

Variable env : Env.
Variable this : Processor.

(** [await this.auth.getOwnServiceCredentials()]. *)
Definition auth_getOwnServiceCredentials : M string :=
  emit AuthOwnCredentials ;;;
  ask (getOwnServiceCredentials env).

(** [await this.auth.getPluginRequestToken({ onBehalfOf, targetPluginId })]. *)
Definition auth_getPluginRequestToken (onBehalfOf targetPluginId : string)
  : M string :=
  emit (AuthPluginToken targetPluginId) ;;;
  ask (getPluginRequestToken env onBehalfOf targetPluginId).

(** [await this.catalog.getEntities({ filter, fields }, { token })]. *)
Definition catalog_getEntities (token : string) : M (list UserEntity) :=
  emit CatalogGetEntities ;;;
  ask (getEntities env token).

(** [await this.catalog.getEntityByRef(entityRef, { token })]. *)
Definition catalog_getEntityByRef (entityRef : JsUser) (token : string)
  : M (option UserEntity) :=
  emit (CatalogGetEntityByRef entityRef) ;;;
  ask (getEntityByRef env entityRef token).

Definition logger_error (message : string) : M unit := emit (LoggerError message).

Definition logger_info (message : string) : M unit := emit (LoggerInfo message).

Definition getTransporter : M Transporter :=
  fun s =>
    match transporter s with
    | Some t => (Ok t, s)
    | None =>
        (kind <- getString "notifications.processors.email.transport" "transport"
                   (transport (transportConfig this)) ;;
         t <- (if String.eqb kind "smtp" then
                 ask (createSmtpTransport env (transportConfig this))
               else if String.eqb kind "ses" then
                 ask (createSesTransport env (transportConfig this))
               else if String.eqb kind "sendmail" then
                 ask (createSendmailTransport env (transportConfig this))
               else throw (Error ("Unsupported transport: " ++ kind))) ;;
         fun s' => (Ok t, set_transporter t s')) s
    end.

(** The e-mails of the entities the catalog returned. *)
Definition entity_emails (items : list UserEntity) : list string :=
  compact (js_set (map profile_email items)).

Definition getBroadcastEmails : M (list string) :=
  match broadcastConfig this with
  | None => ret []
  | Some config =>
      receiver <- getString "notifications.processors.email.broadcastConfig" "receiver"
                    (receiver config) ;;
      if String.eqb receiver "none" then ret []
      else if String.eqb receiver "config" then
        ret (match receiverEmails config with
             | Some emails => emails
             | None => []
             end)
      else if String.eqb receiver "users" then
        cached <- cache_get "user-emails:all" ;;
        match cached with
        | Some emails => ret emails
        | None =>
            credentials <- auth_getOwnServiceCredentials ;;
            token <- auth_getPluginRequestToken credentials "catalog" ;;
            items <- catalog_getEntities token ;;
            let emails := entity_emails items in
            cache_set "user-emails:all" emails (cacheTtl this) ;;;
            ret emails
        end
      else throw (Error ("Unsupported broadcast receiver: " ++ receiver))
  end.

(** The array [ret] of [getUserEmail] after the two [if]s. *)
Definition user_emails (entity : option UserEntity) : list string :=
  match entity with
  | Some userEntity =>
      match profile_email userEntity with
      | Some address => if truthy address then [address] else []
      | None => []
      end
  | None => []
  end.

(** [`user-emails:${entityRef}`]. *)
Definition user_cache_key (entityRef : JsUser) : string :=
  "user-emails:" ++ user_toString entityRef.

Definition getUserEmail (entityRef : JsUser) : M (list string) :=
  cached <- cache_get (user_cache_key entityRef) ;;
  match cached with
  | Some emails => ret emails
  | None =>
      credentials <- auth_getOwnServiceCredentials ;;
      token <- auth_getPluginRequestToken credentials "catalog" ;;
      entity <- catalog_getEntityByRef entityRef token ;;
      let emails := user_emails entity in
      cache_set (user_cache_key entityRef) emails (cacheTtl this) ;;;
      ret emails
  end.

(** The test of the [if] in [getRecipientEmails]. *)
Definition broadcast_path (notification : Notification)
    (options : NotificationSendOptions) : bool :=
  String.eqb (recipients_type options) "broadcast" || is_null (user notification).

Definition getRecipientEmails (notification : Notification)
    (options : NotificationSendOptions) : M (list string) :=
  if broadcast_path notification options then getBroadcastEmails
  else getUserEmail (user notification).

(** [`${options.to}`]. *)
Definition to_toString (options : MailOptions) : string :=
  match mail_to options with
  | Some address => address
  | None => "undefined"
  end.

(** [await this.transporter.sendMail(options)]. *)
Definition transporter_call (options : MailOptions) : M unit :=
  fun s =>
    match transporter s with
    | Some t =>
        (emit (TransportSendMail options) ;;;
         ask (transporter_sendMail env t options)) s
    | None =>
        (Throw (TypeError "Cannot read properties of undefined (reading 'sendMail')"), s)
    end.

Definition sendMail (options : MailOptions) : M unit :=
  try_catch (transporter_call options)
    (fun e =>
       logger_error ("Failed to send email to " ++ to_toString options ++ ": "
                     ++ error_toString e)).

(** The [catch] clause of [sendMail]. *)
Definition sendMail_catch (options : MailOptions) (e : JsError) : M unit :=
  logger_error ("Failed to send email to " ++ to_toString options ++ ": "
                ++ error_toString e).

(** [sendMail] as the event loop runs it.  The first segment makes the
    call [this.transporter.sendMail(options)] (a synchronous throw goes
    to the [catch] at once); the second one runs when the transport has
    answered, and logs a rejection. *)
Definition sendMail_async (options : MailOptions) : Async :=
  fun s =>
    match transporter s with
    | Some t =>
        (Ok (try_catch (ask (transporter_sendMail env t options))
               (sendMail_catch options)),
         emit_event (TransportSendMail options) s)
    | None =>
        (sendMail_catch options
           (TypeError "Cannot read properties of undefined (reading 'sendMail')") ;;;
         ret (ret tt)) s
    end.

(** [pThrottle({ limit, interval })]: the package rejects a limit or an
    interval that is not a finite number with a [TypeError].  Otherwise
    it gives the wrapper of a function: each call of the wrapped
    function is one call of the function, with its argument and its
    outcome, started when the throttle lets it through.  That instant is
    left to [interleaving]; the numbers play no other part here. *)
Definition pThrottle (limit interval : JsNumber)
  : Result ((MailOptions -> Async) -> MailOptions -> Async) :=
  if negb (is_finite limit) then
    Throw (TypeError "Expected `limit` to be a finite number")
  else if negb (is_finite interval) then
    Throw (TypeError "Expected `interval` to be a finite number")
  else Ok (fun fn => fn).

Definition sendMails (options : MailOptions) (emails : list string) : M unit :=
  match pThrottle (concurrencyLimit this) (throttleInterval this) with
  | Throw e => throw e
  | Ok throttle =>
      let throttled := throttle sendMail_async in
      fun s =>
        promise_all (interleaving env (clock s))
          (map (fun address => throttled (with_to options address)) emails) s
  end.

(** [contentParts] of [sendPlainEmail]. *)
Definition contentParts (notification : Notification) : list string :=
  let parts : list string := [] in
  let parts :=
    match description (payload notification) with
    | Some d => if truthy d then (parts ++ [d])%list else parts
    | None => parts
    end in
  match link (payload notification) with
  | Some l => if truthy l then (parts ++ [l])%list else parts
  | None => parts
  end.

(** [mailOptions] of [sendPlainEmail]. *)
Definition plainMailOptions (notification : Notification) : MailOptions :=
  {| mail_from := sender this;
     mail_to := None;
     mail_subject := Some (title (payload notification));
     mail_html := Some ("<p>" ++ join "<br/>" (contentParts notification) ++ "</p>");
     mail_text := Some (join (LF ++ LF) (contentParts notification));
     mail_replyTo := replyTo this |}.

Definition sendPlainEmail (notification : Notification) (emails : list string)
  : M unit :=
  sendMails (plainMailOptions notification) emails.

(** [this.templateRenderer?.accessor?.(notification)].  The accessors
    are taken to return; one that throws makes [sendTemplateEmail], and
    with it [postProcess], throw. *)
Definition render (accessor : NotificationTemplateRenderer ->
                              option (Notification -> option string))
    (notification : Notification) : option string :=
  match templateRenderer this with
  | Some renderer =>
      match accessor renderer with
      | Some f => f notification
      | None => None
      end
  | None => None
  end.

(** [mailOptions] of [sendTemplateEmail]. *)
Definition templateMailOptions (notification : Notification) : MailOptions :=
  {| mail_from := sender this;
     mail_to := None;
     mail_subject :=
       match render getSubject notification with
       | Some subject => Some subject
       | None => Some (title (payload notification))
       end;
     mail_html := render getHtml notification;
     mail_text := render getText notification;
     mail_replyTo := replyTo this |}.

Definition sendTemplateEmail (notification : Notification)
    (emails : list string) : M unit :=
  sendMails (templateMailOptions notification) emails.

(** [emails.length === 0]. *)
Definition is_empty (emails : list string) : bool :=
  match emails with
  | [] => true
  | _ => false
  end.

Definition postProcess (notification : Notification)
    (options : NotificationSendOptions) : M unit :=
  getTransporter ;;;
  resolved <- try_catch
      (emails <- getRecipientEmails notification options ;; ret (Some emails))
      (fun e =>
         logger_error ("Failed to resolve recipient emails: " ++ error_toString e) ;;;
         ret None) ;;
  match resolved with
  | None => ret tt
  | Some emails =>
      if is_empty emails then
        logger_info ("No email recipients found for notification: "
                     ++ id notification ++ ", skipping")
      else
        match templateRenderer this with
        | None => sendPlainEmail notification emails
        | Some _ => sendTemplateEmail notification emails
        end
  end.

End Methods.

(** ** Construction *)

(** The [notifications.processors.email] section, as the constructor
    reads it.  A duration section ([throttleInterval], [cache.ttl]) is
    kept as what [durationToMilliseconds (readDurationFromConfig _)]
    makes of it: a number of milliseconds, or the error it throws. *)
Record EmailProcessorConfig := {
  cfg_transport : option TransportConfig;
  cfg_broadcastConfig : option BroadcastConfig;
  cfg_sender : option string;
  cfg_replyTo : option string;
  cfg_concurrencyLimit : option JsNumber;
  cfg_throttleInterval : option (Result JsNumber);
  cfg_cache_ttl : option (Result Z)
}.

(** The error of a required reader ([getConfig], [getString]) on a key
    that is unset, as in [getString] above. *)
Definition missing_config (key : string) : JsError :=
  Error ("Missing required config value at '" ++ key ++ "'").

(** [section ? durationToMilliseconds(readDurationFromConfig(section)) : fallback]. *)
Definition duration_or {A} (section : option (Result A)) (fallback : A) : Result A :=
  match section with
  | Some milliseconds => milliseconds
  | None => Ok fallback
  end.

(** The constructor: the configuration fields of the new processor, or
    the error thrown while reading them.  [root] is the
    [notifications.processors.email] section of [config], if there. *)
Definition constructor (root : option EmailProcessorConfig)
    (renderer : option NotificationTemplateRenderer) : Result Processor :=
  match root with
  | None => Throw (missing_config "notifications.processors.email")
  | Some emailProcessorConfig =>
      match cfg_transport emailProcessorConfig with
      | None => Throw (missing_config "notifications.processors.email.transport")
      | Some transportSection =>
          match cfg_sender emailProcessorConfig with
          | None => Throw (missing_config "notifications.processors.email.sender")
          | Some from =>
              let limit :=
                match cfg_concurrencyLimit emailProcessorConfig with
                | Some number => number
                | None => Finite 2
                end in
              match duration_or (cfg_throttleInterval emailProcessorConfig) (Finite 100) with
              | Throw e => Throw e
              | Ok interval =>
                  match duration_or (cfg_cache_ttl emailProcessorConfig) 3600000 with
                  | Throw e => Throw e
                  | Ok ttl =>
                      Ok {| transportConfig := transportSection;
                            broadcastConfig := cfg_broadcastConfig emailProcessorConfig;
                            sender := from;
                            replyTo := cfg_replyTo emailProcessorConfig;
                            cacheTtl := ttl;
                            concurrencyLimit := limit;
                            throttleInterval := interval;
                            templateRenderer := renderer |}
                  end
              end
          end
      end
  end.

(** ** Sample configurations

    A small directory, a transport that rejects one address, and a few
    processors and notifications, used to run the methods. *)

Definition alice : UserEntity :=
  {| spec_profile := Some {| email := Some "alice@example.com" |} |}.

Definition bob : UserEntity :=
  {| spec_profile := Some {| email := Some "bob@example.com" |} |}.

(** A user entity without a profile e-mail. *)
Definition carol : UserEntity := {| spec_profile := Some {| email := None |} |}.

Definition sample_directory (entityRef : JsUser) : option UserEntity :=
  match entityRef with
  | JsRef ref =>
      if String.eqb ref "user:default/alice" then Some alice
      else if String.eqb ref "user:default/bob" then Some bob
      else if String.eqb ref "user:default/carol" then Some carol
      else None
  | _ => None
  end.

(** Every collaborator answers; the transport rejects mail to bob. *)
Definition sample_env : Env :=
  {| getOwnServiceCredentials := fun _ => Ok "plugin:notifications";
     getPluginRequestToken := fun _ _ _ => Ok "token";
     getEntities := fun _ _ => Ok [alice; carol; bob; alice];
     getEntityByRef := fun entityRef _ _ => Ok (sample_directory entityRef);
     createSmtpTransport := fun _ _ => Ok {| transport_name := "smtp" |};
     createSesTransport := fun _ _ => Ok {| transport_name := "ses" |};
     createSendmailTransport := fun _ _ => Ok {| transport_name := "sendmail" |};
     transporter_sendMail := fun _ options _ =>
       match mail_to options with
       | Some address =>
           if String.eqb address "bob@example.com"
           then Throw (Error "450 mailbox unavailable")
           else Ok tt
       | None => Throw (Error "No recipients defined")
       end;
     interleaving := fun _ => [] |}.

(** As [sample_env], but the auth service hands out no credentials. *)
Definition failing_auth_env : Env :=
  {| getOwnServiceCredentials := fun _ => Throw (Error "no service credentials");
     getPluginRequestToken := getPluginRequestToken sample_env;
     getEntities := getEntities sample_env;
     getEntityByRef := getEntityByRef sample_env;
     createSmtpTransport := createSmtpTransport sample_env;
     createSesTransport := createSesTransport sample_env;
     createSendmailTransport := createSendmailTransport sample_env;
     transporter_sendMail := transporter_sendMail sample_env;
     interleaving := interleaving sample_env |}.

Definition sample_processor (broadcast : option BroadcastConfig)
    (renderer : option NotificationTemplateRenderer) : Processor :=
  {| transportConfig := {| transport := Some "smtp" |};
     broadcastConfig := broadcast;
     sender := "noreply@example.com";
     replyTo := None;
     cacheTtl := 3600000;
     concurrencyLimit := 2;
     throttleInterval := 100;
     templateRenderer := renderer |}.

Definition plain_processor : Processor := sample_processor None None.

Definition users_processor : Processor :=
  sample_processor (Some {| receiver := Some "users"; receiverEmails := None |}) None.

Definition none_processor : Processor :=
  sample_processor (Some {| receiver := Some "none"; receiverEmails := None |}) None.

(** A [broadcastConfig] section that has no [receiver] key. *)
Definition no_receiver_processor : Processor :=
  sample_processor
    (Some {| receiver := None; receiverEmails := Some ["ops@example.com"] |}) None.

(** A renderer that has [getHtml] and [getText] but no [getSubject]. *)
Definition body_only_renderer : NotificationTemplateRenderer :=
  {| getSubject := None;
     getHtml := Some (fun n => Some ("<h1>" ++ title (payload n) ++ "</h1>"));
     getText := Some (fun n => Some (title (payload n))) |}.

Definition template_processor : Processor :=
  sample_processor None (Some body_only_renderer).

Definition notify (u : JsUser) (t : string) (d l : option string) : Notification :=
  {| id := "n-1"; user := u; payload := {| title := t; description := d; link := l |} |}.

Definition full_notification : Notification :=
  notify (JsRef "user:default/alice") "T" (Some "D") (Some "L").

Definition title_only_notification : Notification :=
  notify (JsRef "user:default/alice") "T" None None.

Definition to_entity : NotificationSendOptions := {| recipients_type := "entity" |}.

Definition to_broadcast : NotificationSendOptions := {| recipients_type := "broadcast" |}.

(** A processor before its first call, with or without a cache. *)
Definition fresh (with_cache : bool) : State :=
  {| clock := 1000;
     cache := if with_cache then Some ∅ else None;
     transporter := None;
     trace := [] |}.

(** A processor whose transport is ready. *)
Definition ready (with_cache : bool) : State :=
  set_transporter {| transport_name := "smtp" |} (fresh with_cache).

(** Broadcasts go to a fixed list. *)
Definition config_processor : Processor :=
  sample_processor
    (Some {| receiver := Some "config";
             receiverEmails := Some ["ops@example.com"; "dev@example.com"] |}) None.

(** A receiver mode the processor does not know. *)
Definition slack_processor : Processor :=
  sample_processor (Some {| receiver := Some "slack"; receiverEmails := None |}) None.

(** A transport kind the processor does not know. *)
Definition pigeon_processor : Processor :=
  {| transportConfig := {| transport := Some "pigeon" |};
     broadcastConfig := None;
     sender := "noreply@example.com";
     replyTo := None;
     cacheTtl := 3600000;
     concurrencyLimit := 2;
     throttleInterval := 100;
     templateRenderer := None |}.

(** As [sample_env], but the sends start from the last address, and
    each one is settled before the next one starts. *)
Definition prompt_env : Env :=
  {| getOwnServiceCredentials := getOwnServiceCredentials sample_env;
     getPluginRequestToken := getPluginRequestToken sample_env;
     getEntities := getEntities sample_env;
     getEntityByRef := getEntityByRef sample_env;
     createSmtpTransport := createSmtpTransport sample_env;
     createSesTransport := createSesTransport sample_env;
     createSendmailTransport := createSendmailTransport sample_env;
     transporter_sendMail := transporter_sendMail sample_env;
     interleaving := fun _ => [2; 2; 1; 1; 0; 0]%nat |}.

(** A [concurrencyLimit] of [Infinity]. *)
Definition unbounded_processor : Processor :=
  {| transportConfig := {| transport := Some "smtp" |};
     broadcastConfig := None;
     sender := "noreply@example.com";
     replyTo := None;
     cacheTtl := 3600000;
     concurrencyLimit := Infinity false;
     throttleInterval := 100;
     templateRenderer := None |}.

(** The smallest configuration the constructor accepts. *)
Definition minimal_config : EmailProcessorConfig :=
  {| cfg_transport := Some {| transport := Some "smtp" |};
     cfg_broadcastConfig := None;
     cfg_sender := Some "noreply@example.com";
     cfg_replyTo := None;
     cfg_concurrencyLimit := None;
     cfg_throttleInterval := None;
     cfg_cache_ttl := None |}.

(** A broadcast notification. *)
Definition broadcast_notification : Notification :=
  notify JsNull "T" (Some "D") None.

(** ** Reading a trace *)

(** The messages handed to the transport, in order. *)
Fixpoint sent (events : list Event) : list MailOptions :=
  match events with
  | [] => []
  | TransportSendMail options :: rest => options :: sent rest
  | _ :: rest => sent rest
  end.

(** The queries made to the catalog, in order. *)
Fixpoint directory_queries (events : list Event) : list Event :=
  match events with
  | [] => []
  | CatalogGetEntities :: rest => CatalogGetEntities :: directory_queries rest
  | CatalogGetEntityByRef r :: rest => CatalogGetEntityByRef r :: directory_queries rest
  | _ :: rest => directory_queries rest
  end.

(** What one send attempt leaves in the trace: the call to the
    transport and, when the transport rejects it, the error logged with
    the address. *)
Definition attempt (env : Env) (t : Transporter) (now : Z) (options : MailOptions)
    (address : string) : list Event :=
  TransportSendMail (with_to options address) ::
  match transporter_sendMail env t (with_to options address) now with
  | Ok _ => []
  | Throw e =>
      [LoggerError ("Failed to send email to " ++ address ++ ": " ++ error_toString e)]
  end.

(** What the answer of the transport to one send leaves in the trace:
    nothing, or the error logged with the address. *)
Definition settle_events (env : Env) (t : Transporter) (now : Z)
    (options : MailOptions) (address : string) : list Event :=
  match transporter_sendMail env t (with_to options address) now with
  | Ok _ => []
  | Throw e =>
      [LoggerError ("Failed to send email to " ++ address ++ ": " ++ error_toString e)]
  end.

(** The second segment of the send to one address. *)
Definition sendMail_settle (env : Env) (t : Transporter) (options : MailOptions)
    (address : string) : M unit :=
  try_catch (ask (transporter_sendMail env t (with_to options address)))
    (sendMail_catch (with_to options address)).

(** A computation that leaves the clock, the cache and the transport
    handle as they are and makes no catalog query. *)
Definition keeps {A} (m : M A) : Prop :=
  forall s : State,
    clock (snd (m s)) = clock s
    /\ cache (snd (m s)) = cache s
    /\ transporter (snd (m s)) = transporter s
    /\ directory_queries (trace (snd (m s))) = directory_queries (trace s).

(** The same for both segments of an [async] call. *)
Definition keeps_async (call : Async) : Prop :=
  keeps call /\ forall (s : State) (rest : M unit), fst (call s) = Ok rest -> keeps rest.

(** A computation that hands nothing to the transport and keeps
    [this.transporter] as it is. *)
Definition quiet {A} (m : M A) : Prop :=
  forall s : State,
    sent (trace (snd (m s))) = sent (trace s)
    /\ transporter (snd (m s)) = transporter s.

(** The one cache key a resolution may write. *)
Definition resolution_key (n : Notification) (o : NotificationSendOptions) : string :=
  if broadcast_path n o then "user-emails:all" else user_cache_key (user n).

(** The description and the link that are there: [undefined] and the
    empty string count as not there. *)
Definition present_parts (p : NotificationPayload) : list string :=
  (match description p with
   | Some d => if String.eqb d "" then [] else [d]
   | None => []
   end ++
   match link p with
   | Some l => if String.eqb l "" then [] else [l]
   | None => []
   end)%list.

(** A user identifier that is [null] or left out. *)
Definition absent (u : JsUser) : Prop := u = JsNull \/ u = JsUndefined.

(** An entity that is missing, or has no (non-empty) profile e-mail. *)
Definition lacks_email (entity : option UserEntity) : Prop :=
  match entity with
  | Some userEntity => truthy_opt (profile_email userEntity) = false
  | None => True
  end.

(** ** Rendering *)

Lemma contentParts_present (this : Processor) (n : Notification) :
  contentParts n = present_parts (payload n).
Proof.
  unfold contentParts, present_parts, truthy.
  destruct (description (payload n)) as [d|], (link (payload n)) as [l|];
    repeat match goal with
           | |- context [String.eqb ?x ""] => destruct (String.eqb x "")
           end; reflexivity.
Qed.

(** C1, as stated, fails on a payload that has only a title: the text
    body is the empty string, but the HTML body is the empty paragraph
    ["<p></p>"], not the empty string. *)
Lemma plain_title_only_html_not_empty :
  ~ (mail_subject (plainMailOptions plain_processor title_only_notification) = Some "T"
     /\ mail_text (plainMailOptions plain_processor title_only_notification) = Some ""
     /\ mail_html (plainMailOptions plain_processor title_only_notification) = Some "").
Proof. intros (_ & _ & Hhtml). vm_compute in Hhtml. discriminate Hhtml. Qed.

(** C1 (amended).  With the Plain strategy the subject is the payload
    title, the text body is the description and the link, each included
    only if present and non-empty, joined in that order by a blank line,
    and the HTML body is the same parts joined by ["<br/>"] inside a
    paragraph.  For the payload T, D, L the text body is D, blank line,
    L and the HTML body is ["<p>D<br/>L</p>"]; for a payload with only
    the title T the subject is T, the text body is empty and the HTML
    body is the empty paragraph ["<p></p>"]. *)
Theorem plain_rendering (this : Processor) (n : Notification) :
  mail_subject (plainMailOptions this n) = Some (title (payload n))
  /\ mail_text (plainMailOptions this n)
     = Some (join (LF ++ LF) (present_parts (payload n)))
  /\ mail_html (plainMailOptions this n)
     = Some ("<p>" ++ join "<br/>" (present_parts (payload n)) ++ "</p>")
  /\ (forall i u,
        let m := plainMailOptions this
                   {| id := i; user := u;
                      payload := {| title := "T"; description := Some "D";
                                    link := Some "L" |} |} in
        mail_subject m = Some "T"
        /\ mail_text m = Some ("D" ++ LF ++ LF ++ "L")
        /\ mail_html m = Some "<p>D<br/>L</p>")
  /\ (forall i u,
        let m := plainMailOptions this
                   {| id := i; user := u;
                      payload := {| title := "T"; description := None;
                                    link := None |} |} in
        mail_subject m = Some "T"
        /\ mail_text m = Some ""
        /\ mail_html m = Some "<p></p>").
Proof.
  split; [reflexivity|].
  split; [cbn [plainMailOptions mail_text]; now rewrite contentParts_present|].
  split; [cbn [plainMailOptions mail_html]; now rewrite contentParts_present|].
  split; intros i u m; subst m; repeat split; reflexivity.
Qed.

(** C3, as stated, fails for a renderer without [getSubject]: the
    subject of the message is the payload title, neither absent nor
    empty. *)
Lemma template_subject_falls_back_to_title :
  getSubject body_only_renderer = None
  /\ ~ (mail_subject (templateMailOptions template_processor title_only_notification) = None
        \/ mail_subject (templateMailOptions template_processor title_only_notification)
           = Some "").
Proof.
  split; [reflexivity|].
  intros [H|H]; vm_compute in H; discriminate H.
Qed.

(** C3 (amended).  With the Template strategy the HTML body and the text
    body are what the renderer's [getHtml] and [getText] return for the
    notification, and are absent when the renderer lacks the accessor;
    the subject is what [getSubject] returns, and is the payload title
    when the renderer lacks [getSubject] or it returns nothing. *)
Theorem template_rendering (this : Processor)
    (renderer : NotificationTemplateRenderer) (n : Notification) :
  templateRenderer this = Some renderer ->
  mail_html (templateMailOptions this n)
    = match getHtml renderer with Some f => f n | None => None end
  /\ mail_text (templateMailOptions this n)
    = match getText renderer with Some f => f n | None => None end
  /\ mail_subject (templateMailOptions this n)
    = match getSubject renderer with
      | Some f =>
          match f n with
          | Some subject => Some subject
          | None => Some (title (payload n))
          end
      | None => Some (title (payload n))
      end.
Proof.
  intros Hrenderer.
  unfold templateMailOptions, render; cbn [mail_html mail_text mail_subject].
  rewrite Hrenderer.
  destruct (getSubject renderer); repeat split.
Qed.

Lemma template_rendering_witness :
  templateRenderer template_processor = Some body_only_renderer
  /\ mail_html (templateMailOptions template_processor full_notification)
     = Some "<h1>T</h1>"
  /\ mail_subject (templateMailOptions template_processor full_notification)
     = Some "T".
Proof.
  split; [reflexivity|].
  destruct (template_rendering template_processor body_only_renderer
              full_notification eq_refl) as (Hhtml & _ & Hsubject).
  split; [rewrite Hhtml | rewrite Hsubject]; reflexivity.
Defined.

(** ** Recipient resolution: which path *)

(** C2, as stated, fails for a notification whose user identifier is
    left out ([undefined]) and send options that ask for an entity: the
    strict comparison with [null] does not hold, and the targeted path
    is taken. *)
Lemma undefined_user_takes_targeted_path :
  ~ (broadcast_path (notify JsUndefined "T" None None) to_entity = true
     <-> (recipients_type to_entity = "broadcast"
          \/ absent (user (notify JsUndefined "T" None None)))).
Proof.
  intros [_ H].
  assert (Hpath : broadcast_path (notify JsUndefined "T" None None) to_entity = true)
    by (apply H; right; right; reflexivity).
  vm_compute in Hpath. discriminate Hpath.
Qed.

(** C2 (amended).  Recipient resolution takes the broadcast path exactly
    when the recipients type of the send options is broadcast or the
    notification's user identifier is [null]; otherwise it takes the
    targeted path with the notification's user identifier. *)
Theorem recipient_path_selection (env : Env) (this : Processor)
    (n : Notification) (o : NotificationSendOptions) :
  broadcast_path n o
    = bool_decide (recipients_type o = "broadcast" \/ user n = JsNull)
  /\ getRecipientEmails env this n o
    = if bool_decide (recipients_type o = "broadcast" \/ user n = JsNull)
      then getBroadcastEmails env this
      else getUserEmail env this (user n).
Proof.
  assert (Hpath : broadcast_path n o
            = bool_decide (recipients_type o = "broadcast" \/ user n = JsNull)).
  { unfold broadcast_path.
    destruct (String.eqb_spec (recipients_type o) "broadcast") as [Ht|Ht];
      destruct (user n) eqn:Hu; cbn [is_null orb];
      symmetry;
      first [ apply bool_decide_eq_true; tauto
            | apply bool_decide_eq_false; intros [?|?]; congruence ]. }
  split; [exact Hpath|].
  unfold getRecipientEmails. rewrite Hpath. reflexivity.
Qed.

(** ** Recipient resolution and the cache *)

Lemma user_emails_lacking (entity : option UserEntity) :
  lacks_email entity -> user_emails entity = [].
Proof.
  destruct entity as [userEntity|]; [|reflexivity].
  unfold lacks_email, user_emails, truthy_opt.
  destruct (profile_email userEntity) as [address|]; [|reflexivity].
  intros ->. reflexivity.
Qed.

(** C4.  A targeted resolution that misses the cache and finds the
    entity absent or without a profile e-mail returns the empty set and
    stores it under the user's key with the configured TTL; while that
    entry is in the cache and the TTL has not elapsed, a resolution of
    the same identifier returns the empty set after a single cache read,
    with no call to the auth service or the catalog. *)
Theorem targeted_empty_result_is_cached (env : Env) (this : Processor)
    (entityRef : JsUser) (s : State) (store : gmap string CacheEntry)
    (credentials token : string) (entity : option UserEntity) :
  cache s = Some store ->
  store_get (clock s) store (user_cache_key entityRef) = None ->
  getOwnServiceCredentials env (clock s) = Ok credentials ->
  getPluginRequestToken env credentials "catalog" (clock s) = Ok token ->
  getEntityByRef env entityRef token (clock s) = Ok entity ->
  lacks_email entity ->
  fst (getUserEmail env this entityRef s) = Ok []
  /\ trace (snd (getUserEmail env this entityRef s))
     = (trace s ++ [CacheGet (user_cache_key entityRef);
                    AuthOwnCredentials;
                    AuthPluginToken "catalog";
                    CatalogGetEntityByRef entityRef;
                    CacheSet (user_cache_key entityRef) [] (cacheTtl this)])%list
  /\ cache (snd (getUserEmail env this entityRef s))
     = Some (<[user_cache_key entityRef :=
                 {| entry_value := []; entry_expires := clock s + cacheTtl this |}]>
               store)
  /\ forall (later : State) (store' : gmap string CacheEntry),
       cache later = Some store' ->
       store' !! user_cache_key entityRef
         = Some {| entry_value := []; entry_expires := clock s + cacheTtl this |} ->
       clock later < clock s + cacheTtl this ->
       getUserEmail env this entityRef later
         = (Ok [], emit_event (CacheGet (user_cache_key entityRef)) later).
Proof.
  intros Hcache Hmiss Hcred Htoken Hentity Hlacks.
  assert (Hrun : getUserEmail env this entityRef s
            = (Ok [],
               emit_event (CacheSet (user_cache_key entityRef) [] (cacheTtl this))
                 (set_cache (store_set (clock s) store (user_cache_key entityRef) []
                               (cacheTtl this))
                    (emit_event (CatalogGetEntityByRef entityRef)
                       (emit_event (AuthPluginToken "catalog")
                          (emit_event AuthOwnCredentials
                             (emit_event (CacheGet (user_cache_key entityRef)) s))))))).
  { unfold getUserEmail, bind, cache_get. rewrite Hcache, Hmiss.
    unfold auth_getOwnServiceCredentials, auth_getPluginRequestToken,
      catalog_getEntityByRef, bind, emit, ask, cache_set, ret.
    cbn [clock emit_event cache set_cache].
    rewrite Hcred, Htoken, Hentity, Hcache.
    rewrite (user_emails_lacking entity Hlacks). reflexivity. }
  rewrite Hrun. cbn [fst snd].
  split; [reflexivity|].
  split.
  { cbn [trace emit_event set_cache]. rewrite <- !app_assoc. reflexivity. }
  split; [reflexivity|].
  intros later store' Hlater Hentry Hfresh.
  unfold getUserEmail, bind, cache_get. rewrite Hlater.
  unfold store_get. rewrite Hentry. cbn [entry_expires entry_value].
  destruct (Z.ltb_spec (clock later) (clock s + cacheTtl this)) as [_|Hge]; [|lia].
  reflexivity.
Qed.

Lemma targeted_empty_result_is_cached_witness :
  fst (getUserEmail sample_env plain_processor (JsRef "user:default/carol") (fresh true))
    = Ok []
  /\ fst (getUserEmail sample_env plain_processor (JsRef "user:default/carol")
            (advance 5000
               (snd (getUserEmail sample_env plain_processor
                       (JsRef "user:default/carol") (fresh true)))))
     = Ok [].
Proof.
  destruct (targeted_empty_result_is_cached sample_env plain_processor
              (JsRef "user:default/carol") (fresh true) ∅
              "plugin:notifications" "token" (Some carol)
              eq_refl eq_refl eq_refl eq_refl eq_refl eq_refl)
    as (Hfirst & _ & Hstore & Hlater).
  split; [exact Hfirst|].
  erewrite Hlater; [reflexivity | exact Hstore | apply lookup_insert_eq | ].
  vm_compute. reflexivity.
Defined.

(** *** The set derived from a directory response *)

Lemma js_set_from_elem {A} `{EqDecision A} (xs seen : list A) (x : A) :
  x ∈ js_set_from seen xs <-> x ∈ xs /\ x ∉ seen.
Proof.
  revert seen. induction xs as [|y xs IH]; intros seen; cbn [js_set_from].
  - split; [intros Hx; inversion Hx | intros [Hx _]; inversion Hx].
  - destruct (decide (y ∈ seen)) as [Hseen|Hfresh].
    + rewrite IH, elem_of_cons. split; [tauto|].
      intros [[->|Hx] Hnot]; [contradiction | tauto].
    + rewrite !elem_of_cons, IH, elem_of_cons.
      destruct (decide (x = y)) as [->|Hne]; tauto.
Qed.

Lemma js_set_from_NoDup {A} `{EqDecision A} (xs seen : list A) :
  NoDup (js_set_from seen xs).
Proof.
  revert seen. induction xs as [|y xs IH]; intros seen; cbn [js_set_from].
  - constructor.
  - destruct (decide (y ∈ seen)); [apply IH|].
    constructor; [|apply IH].
    rewrite js_set_from_elem, elem_of_cons. tauto.
Qed.

Lemma compact_elem (xs : list (option string)) (a : string) :
  a ∈ compact xs <-> Some a ∈ xs /\ a <> "".
Proof.
  induction xs as [|[s|] xs IH]; cbn [compact].
  - split; [intros Ha; inversion Ha | intros [Ha _]; inversion Ha].
  - unfold truthy. destruct (String.eqb_spec s "") as [->|Hs]; cbn [negb].
    + rewrite IH, elem_of_cons. split; [tauto|].
      intros [[Heq|Ha] Hne]; [congruence | tauto].
    + rewrite !elem_of_cons, IH. split.
      * intros [->|[Ha Hne]]; tauto.
      * intros [[Heq|Ha] Hne]; [left; congruence | tauto].
  - rewrite IH, elem_of_cons. split; [tauto|].
    intros [[Heq|Ha] Hne]; [discriminate | tauto].
Qed.

Lemma compact_NoDup (xs : list (option string)) :
  NoDup xs -> NoDup (compact xs).
Proof.
  induction 1 as [|[s|] xs Hnotin Hnodup IH]; cbn [compact].
  - constructor.
  - destruct (truthy s); [|exact IH].
    constructor; [|exact IH]. rewrite compact_elem. tauto.
  - exact IH.
Qed.

(** The addresses resolved from a catalog response are the non-empty
    profile e-mails of its entities, each once. *)
Lemma entity_emails_spec (items : list UserEntity) :
  NoDup (entity_emails items)
  /\ forall a : string,
       a ∈ entity_emails items
       <-> a <> "" /\ exists entity, entity ∈ items /\ profile_email entity = Some a.
Proof.
  unfold entity_emails, js_set. split.
  - apply compact_NoDup, js_set_from_NoDup.
  - intros a. rewrite compact_elem, js_set_from_elem, list_elem_of_fmap.
    split.
    + intros [[(entity & Heq & Hin) _] Hne]. split; [exact Hne|]. eauto.
    + intros [Hne (entity & Hin & Heq)]. split; [|exact Hne].
      split; [eauto | intros Hnil; inversion Hnil].
Qed.



(** ** Dispatch *)

Lemma sent_app (xs ys : list Event) : sent (xs ++ ys) = (sent xs ++ sent ys)%list.
Proof.
  induction xs as [|ev xs IH]; [reflexivity|].
  destruct ev; cbn [sent app]; rewrite IH; reflexivity.
Qed.

Lemma sent_attempt (env : Env) (t : Transporter) (now : Z)
    (options : MailOptions) (address : string) :
  sent (attempt env t now options address) = [with_to options address].
Proof.
  unfold attempt.
  destruct (transporter_sendMail env t (with_to options address) now); reflexivity.
Qed.

Lemma sent_attempts (env : Env) (t : Transporter) (now : Z)
    (options : MailOptions) (emails : list string) :
  sent (flat_map (attempt env t now options) emails) = map (with_to options) emails.
Proof.
  induction emails as [|address emails IH]; [reflexivity|].
  cbn [flat_map map]. rewrite sent_app, sent_attempt, IH. reflexivity.
Qed.

Lemma sent_Permutation (xs ys : list Event) :
  xs ≡ₚ ys -> sent xs ≡ₚ sent ys.
Proof.
  induction 1 as [|ev xs ys _ IH|ev ev' xs|xs ys zs _ IH1 _ IH2].
  - reflexivity.
  - destruct ev; cbn [sent]; try exact IH. apply perm_skip, IH.
  - destruct ev, ev'; cbn [sent]; try reflexivity. apply perm_swap.
  - etransitivity; eassumption.
Qed.

Lemma directory_queries_app (xs ys : list Event) :
  directory_queries (xs ++ ys) = (directory_queries xs ++ directory_queries ys)%list.
Proof.
  induction xs as [|ev xs IH]; [reflexivity|].
  destruct ev; cbn [directory_queries app]; rewrite IH; reflexivity.
Qed.

(** One send run from its call to its end, as [await this.sendMail(options)]
    does: it returns normally whatever the transport answers, and
    changes nothing but the trace. *)
Lemma sendMail_run (env : Env) (options : MailOptions)
    (address : string) (s : State) (t : Transporter) :
  transporter s = Some t ->
  fst (sendMail env (with_to options address) s) = Ok tt
  /\ clock (snd (sendMail env (with_to options address) s)) = clock s
  /\ cache (snd (sendMail env (with_to options address) s)) = cache s
  /\ transporter (snd (sendMail env (with_to options address) s)) = Some t
  /\ trace (snd (sendMail env (with_to options address) s))
     = (trace s ++ attempt env t (clock s) options address)%list.
Proof.
  intros Ht.
  unfold sendMail, try_catch, transporter_call. rewrite Ht.
  unfold bind, emit, ask, attempt. cbn [clock emit_event].
  destruct (transporter_sendMail env t (with_to options address) (clock s)) as [[]|e];
    cbn [fst snd logger_error emit clock cache transporter trace emit_event
         to_toString with_to mail_to];
    rewrite <- ?app_assoc; auto.
Qed.

(** The two segments of [sendMail_async], run one after the other, are
    [sendMail]. *)
Lemma sendMail_async_join (env : Env) (options : MailOptions) (s : State) :
  bind (sendMail_async env options) (fun rest => rest) s = sendMail env options s.
Proof.
  unfold bind, sendMail_async, sendMail, try_catch, transporter_call.
  destruct (transporter s) as [t|]; [|reflexivity].
  unfold bind, emit, ask. cbn [clock emit_event].
  destruct (transporter_sendMail env t options (clock s)) as [[]|e]; reflexivity.
Qed.

(** *** The frame of a dispatch *)

Lemma keeps_settled (rejection : option JsError) : keeps (settled rejection).
Proof. intros s. destruct rejection; cbn; auto. Qed.

Lemma keeps_settle_all (fuel : nat) :
  forall (picks : list nat) (waiting : list Async) (inflight : list (M unit))
         (rejection : option JsError),
    Forall keeps_async waiting ->
    Forall keeps inflight ->
    keeps (settle_all fuel picks waiting inflight rejection).
Proof.
  induction fuel as [|fuel IH]; intros picks waiting inflight rejection Hw Hi;
    cbn [settle_all]; [apply keeps_settled|].
  set (k := Nat.modulo (hd 0%nat picks) (length waiting + length inflight)).
  destruct (waiting !! k) as [call|] eqn:Hcall.
  - destruct (Forall_lookup_1 _ _ _ _ Hw Hcall) as [Hfirst Hrest].
    intros s. specialize (Hfirst s). specialize (Hrest s).
    destruct (call s) as [[rest|e] s1]; cbn [fst snd] in Hfirst, Hrest.
    + assert (Hkeeps : keeps (settle_all fuel (tl picks) (delete k waiting)
                                (inflight ++ [rest])%list rejection)).
      { apply IH; [apply Forall_delete, Hw|].
        apply Forall_app. split; [exact Hi|]. constructor; [|constructor].
        apply Hrest. reflexivity. }
      destruct (Hkeeps s1) as (-> & -> & -> & ->). exact Hfirst.
    + assert (Hkeeps : keeps (settle_all fuel (tl picks) (delete k waiting) inflight
                                (first_rejection rejection e))).
      { apply IH; [apply Forall_delete, Hw | exact Hi]. }
      destruct (Hkeeps s1) as (-> & -> & -> & ->). exact Hfirst.
  - destruct (inflight !! (k - length waiting)%nat) as [rest|] eqn:Hrest;
      [|apply keeps_settled].
    pose proof (Forall_lookup_1 _ _ _ _ Hi Hrest) as Hsecond.
    intros s. specialize (Hsecond s).
    destruct (rest s) as [[[]|e] s1]; cbn [snd] in Hsecond;
      match goal with
      | |- context [settle_all fuel ?p ?w ?i ?r s1] =>
          assert (Hkeeps : keeps (settle_all fuel p w i r))
            by (apply IH; [exact Hw | apply Forall_delete, Hi]);
          destruct (Hkeeps s1) as (-> & -> & -> & ->); exact Hsecond
      end.
Qed.

Lemma keeps_sendMail_catch (options : MailOptions) (e : JsError) :
  keeps (sendMail_catch options e).
Proof.
  intros s. cbn [sendMail_catch logger_error emit snd emit_event clock cache
                 transporter trace].
  rewrite directory_queries_app, app_nil_r. auto.
Qed.

Lemma keeps_sendMail_async (env : Env) (options : MailOptions) :
  keeps_async (sendMail_async env options).
Proof.
  split.
  - intros s. unfold sendMail_async.
    destruct (transporter s) as [t|] eqn:Ht.
    + cbn [snd emit_event clock cache transporter trace].
      rewrite directory_queries_app, app_nil_r. auto.
    + unfold bind, sendMail_catch, logger_error, emit, ret.
      cbn [snd emit_event clock cache transporter trace].
      rewrite directory_queries_app, app_nil_r. auto.
  - intros s rest. unfold sendMail_async.
    destruct (transporter s) as [t|].
    + cbn [fst]. intros [= <-]. intros s'. unfold try_catch, ask.
      destruct (transporter_sendMail env t options (clock s')) as [[]|e];
        [cbn; auto | apply keeps_sendMail_catch].
    + unfold bind. cbn [sendMail_catch logger_error emit ret fst].
      intros [= <-]. intros s'. cbn; auto.
Qed.

(** A dispatch, whether it returns or throws and whatever the order of
    its sends, leaves the clock, the cache and the transport handle as
    they are and makes no catalog query. *)
Lemma keeps_sendMails (env : Env) (this : Processor) (options : MailOptions)
    (emails : list string) :
  keeps (sendMails env this options emails).
Proof.
  unfold sendMails.
  destruct (pThrottle (concurrencyLimit this) (throttleInterval this))
    as [throttle|e] eqn:Hthrottle; [|intros s; cbn; auto].
  unfold pThrottle in Hthrottle.
  destruct (negb (is_finite (concurrencyLimit this))); [discriminate|].
  destruct (negb (is_finite (throttleInterval this))); [discriminate|].
  injection Hthrottle as <-.
  intros s. unfold promise_all.
  apply keeps_settle_all; [|constructor].
  apply Forall_forall. intros call Hin.
  apply list_elem_of_In, in_map_iff in Hin. destruct Hin as (address & <- & _).
  apply keeps_sendMail_async.
Qed.

(** *** What a dispatch leaves in the trace *)

Lemma attempt_settle (env : Env) (t : Transporter) (now : Z)
    (options : MailOptions) (address : string) :
  attempt env t now options address
  = TransportSendMail (with_to options address)
    :: settle_events env t now options address.
Proof. reflexivity. Qed.

Lemma sendMail_settle_run (env : Env) (t : Transporter) (options : MailOptions)
    (address : string) (s : State) :
  fst (sendMail_settle env t options address s) = Ok tt
  /\ clock (snd (sendMail_settle env t options address s)) = clock s
  /\ transporter (snd (sendMail_settle env t options address s)) = transporter s
  /\ trace (snd (sendMail_settle env t options address s))
     = (trace s ++ settle_events env t (clock s) options address)%list.
Proof.
  unfold sendMail_settle, try_catch, ask, settle_events.
  destruct (transporter_sendMail env t (with_to options address) (clock s)) as [[]|e];
    cbn [fst snd sendMail_catch logger_error emit emit_event clock transporter trace
         to_toString with_to mail_to];
    rewrite ?app_nil_r; auto.
Qed.

(** The event loop on the sends of one dispatch: with turns enough for
    the calls that wait and the sends in flight, it ends with the outcome
    [Promise.all] had so far, and what it adds to the trace is, in some
    order, a send and its settlement for every waiting address and the
    settlement for every address in flight. *)
Lemma settle_all_sends (env : Env) (t : Transporter) (options : MailOptions)
    (fuel : nat) :
  forall (picks : list nat) (waiting inflight : list string)
         (rejection : option JsError) (s : State),
    transporter s = Some t ->
    (2 * length waiting + length inflight <= fuel)%nat ->
    exists events : list Event,
      fst (settle_all fuel picks
             ((fun address => sendMail_async env (with_to options address)) <$> waiting)
             (sendMail_settle env t options <$> inflight) rejection s)
        = fst (settled rejection s)
      /\ trace (snd (settle_all fuel picks
                      ((fun address => sendMail_async env (with_to options address))
                         <$> waiting)
                      (sendMail_settle env t options <$> inflight) rejection s))
         = (trace s ++ events)%list
      /\ events ≡ₚ (flat_map (attempt env t (clock s) options) waiting
                    ++ flat_map (settle_events env t (clock s) options) inflight)%list.
Proof.
  induction fuel as [|fuel IH]; intros picks waiting inflight rejection s Ht Hfuel.
  - destruct waiting; [|cbn in Hfuel; lia]. destruct inflight; [|cbn in Hfuel; lia].
    exists []. cbn [settle_all fmap list_fmap flat_map app].
    rewrite app_nil_r. destruct rejection; cbn; auto.
  - cbn [settle_all]. rewrite !length_fmap.
    set (k := Nat.modulo (hd 0%nat picks) (length waiting + length inflight)).
    rewrite !list_lookup_fmap.
    destruct (waiting !! k) as [address|] eqn:Hstart; cbn [fmap option_fmap option_map].
    + (* the call for [address] is let through *)
      assert (Hcall : sendMail_async env (with_to options address) s
                = (Ok (sendMail_settle env t options address),
                   emit_event (TransportSendMail (with_to options address)) s))
        by (unfold sendMail_async; rewrite Ht; reflexivity).
      rewrite Hcall. rewrite <- list_fmap_delete.
      change [sendMail_settle env t options address]
        with (sendMail_settle env t options <$> [address]).
      rewrite <- fmap_app.
      destruct (IH (tl picks) (delete k waiting) (inflight ++ [address])%list rejection
                  (emit_event (TransportSendMail (with_to options address)) s) Ht)
        as (events & Hfst & Htrace & Hperm).
      { rewrite length_app, length_delete by eauto. cbn [length].
        pose proof (lookup_lt_Some _ _ _ Hstart). lia. }
      exists (TransportSendMail (with_to options address) :: events).
      split; [rewrite Hfst; destruct rejection; reflexivity|].
      split; [rewrite Htrace; cbn [trace emit_event]; rewrite <- app_assoc; reflexivity|].
      rewrite Hperm. cbn [clock emit_event].
      rewrite (Permutation_flat_map (attempt env t (clock s) options)
                 (delete_Permutation _ _ _ Hstart)).
      cbn [flat_map]. rewrite attempt_settle, flat_map_app. cbn [flat_map app].
      rewrite app_nil_r. apply perm_skip.
      rewrite <- !app_assoc.
      rewrite (Permutation_app_comm (settle_events env t (clock s) options address)).
      rewrite <- !app_assoc. reflexivity.
    + destruct (inflight !! (k - length waiting)%nat) as [address|] eqn:Hsettle;
        cbn [fmap option_fmap option_map].
      * (* the transport answers the send to [address] *)
        destruct (sendMail_settle_run env t options address s)
          as (Hok & Hclock & Hhandle & Hevents).
        rewrite <- list_fmap_delete.
        destruct (sendMail_settle env t options address s) as [[[]|e] s1];
          cbn [fst snd] in Hok, Hclock, Hhandle, Hevents; [|discriminate Hok].
        rewrite Ht in Hhandle.
        destruct (IH (tl picks) waiting (delete (k - length waiting)%nat inflight)
                    rejection s1 Hhandle)
          as (events & Hfst & Htrace & Hperm).
        { rewrite length_delete by eauto.
          pose proof (lookup_lt_Some _ _ _ Hsettle). lia. }
        exists (settle_events env t (clock s) options address ++ events)%list.
        split; [rewrite Hfst; destruct rejection; reflexivity|].
        split; [rewrite Htrace, Hevents, <- app_assoc; reflexivity|].
        rewrite Hperm, Hclock.
        rewrite (Permutation_flat_map (settle_events env t (clock s) options)
                   (delete_Permutation _ _ _ Hsettle)).
        cbn [flat_map].
        rewrite !app_assoc.
        rewrite (Permutation_app_comm (settle_events env t (clock s) options address)
                   (flat_map (attempt env t (clock s) options) waiting)).
        reflexivity.
      * (* nothing is left *)
        apply lookup_ge_None in Hstart, Hsettle.
        assert (Hnone : (length waiting + length inflight = 0)%nat).
        { destruct (Nat.eq_dec (length waiting + length inflight)%nat 0%nat) as [|Hpos];
            [assumption|].
          pose proof (Nat.mod_upper_bound (hd 0%nat picks) _ Hpos) as Hk.
          fold k in Hk. lia. }
        destruct waiting; [|cbn in Hnone; lia].
        destruct inflight; [|cbn in Hnone; lia].
        exists []. cbn [flat_map app]. rewrite app_nil_r.
        destruct rejection; cbn; auto.
Qed.

(** C5, as stated, fails on a processor whose [concurrencyLimit] is not
    a finite number: the throttle is made inside [sendMails], outside
    any [try], and refuses such a limit, so the dispatch throws to its
    caller before any send. *)
Lemma sendMails_throws_on_infinite_limit :
  ~ (fst (sendMails sample_env unbounded_processor
            (plainMailOptions unbounded_processor full_notification)
            ["alice@example.com"] (ready false))
     = Ok tt).
Proof. intros H. vm_compute in H. discriminate H. Qed.

(** C5 (amended).  On a processor whose [concurrencyLimit] and
    [throttleInterval] are finite numbers, dispatching a message to a
    list of recipients returns normally, whatever the transport answers
    and in whatever order the sends run: what the dispatch adds to the
    trace is, up to order, one send for every recipient and, for every
    send the transport rejects, one error log naming the address and the
    error.  A rejected send therefore cancels no other send, and the
    call returns only when every recipient has had its attempt. *)
Theorem sendMails_never_throws (env : Env) (this : Processor)
    (options : MailOptions) (emails : list string) (s : State) (t : Transporter) :
  is_finite (concurrencyLimit this) = true ->
  is_finite (throttleInterval this) = true ->
  transporter s = Some t ->
  fst (sendMails env this options emails s) = Ok tt
  /\ exists events : list Event,
       trace (snd (sendMails env this options emails s)) = (trace s ++ events)%list
       /\ events ≡ₚ flat_map (attempt env t (clock s) options) emails
       /\ sent events ≡ₚ map (with_to options) emails.
Proof.
  intros Hlimit Hinterval Ht.
  unfold sendMails, pThrottle. rewrite Hlimit, Hinterval. cbn [negb].
  unfold promise_all. rewrite length_map.
  change (map (fun address => sendMail_async env (with_to options address)) emails)
    with ((fun address => sendMail_async env (with_to options address)) <$> emails).
  destruct (settle_all_sends env t options (2 * length emails)
              (interleaving env (clock s)) emails [] None s Ht)
    as (events & Hfst & Htrace & Hperm); [cbn [length]; lia|].
  cbn [fmap list_fmap flat_map] in Hfst, Htrace, Hperm. rewrite app_nil_r in Hperm.
  split; [exact Hfst|].
  exists events. split; [exact Htrace|]. split; [exact Hperm|].
  rewrite (sent_Permutation _ _ Hperm), sent_attempts. reflexivity.
Qed.

Lemma sendMails_never_throws_witness :
  fst (sendMails prompt_env plain_processor (plainMailOptions plain_processor full_notification)
         ["alice@example.com"; "bob@example.com"; "dave@example.com"] (ready false))
    = Ok tt
  /\ map mail_to
       (sent (trace (snd (sendMails prompt_env plain_processor
                            (plainMailOptions plain_processor full_notification)
                            ["alice@example.com"; "bob@example.com"; "dave@example.com"]
                            (ready false)))))
     ≡ₚ [Some "alice@example.com"; Some "bob@example.com"; Some "dave@example.com"].
Proof.
  destruct (sendMails_never_throws prompt_env plain_processor
              (plainMailOptions plain_processor full_notification)
              ["alice@example.com"; "bob@example.com"; "dave@example.com"]
              (ready false) {| transport_name := "smtp" |} eq_refl eq_refl eq_refl)
    as (Hok & events & Htrace & _ & Hsent).
  split; [exact Hok|].
  rewrite Htrace. cbn [trace ready set_transporter fresh app sent].
  rewrite Hsent. reflexivity.
Defined.

(** The same, for the proofs about [postProcess]. *)
Lemma sendMails_run (env : Env) (this : Processor) (options : MailOptions)
    (emails : list string) (s : State) (t : Transporter) :
  is_finite (concurrencyLimit this) = true ->
  is_finite (throttleInterval this) = true ->
  transporter s = Some t ->
  fst (sendMails env this options emails s) = Ok tt
  /\ exists events : list Event,
       trace (snd (sendMails env this options emails s)) = (trace s ++ events)%list
       /\ sent events ≡ₚ map (with_to options) emails.
Proof.
  intros Hlimit Hinterval Ht.
  unfold sendMails, pThrottle. rewrite Hlimit, Hinterval. cbn [negb].
  unfold promise_all. rewrite length_map.
  change (map (fun address => sendMail_async env (with_to options address)) emails)
    with ((fun address => sendMail_async env (with_to options address)) <$> emails).
  destruct (settle_all_sends env t options (2 * length emails)
              (interleaving env (clock s)) emails [] None s Ht)
    as (events & Hfst & Htrace & Hperm); [cbn [length]; lia|].
  cbn [fmap list_fmap flat_map] in Hfst, Htrace, Hperm. rewrite app_nil_r in Hperm.
  split; [exact Hfst|].
  exists events. split; [exact Htrace|].
  rewrite (sent_Permutation _ _ Hperm), sent_attempts. reflexivity.
Qed.

(** ** Resolution touches neither the transport nor its handle *)

Lemma quiet_ret {A} (a : A) : quiet (ret a).
Proof. intros s. split; reflexivity. Qed.

Lemma quiet_throw {A} (e : JsError) : quiet (@throw A e).
Proof. intros s. split; reflexivity. Qed.

Lemma quiet_ask {A} (answer : Z -> Result A) : quiet (ask answer).
Proof. intros s. split; reflexivity. Qed.

Lemma quiet_bind {A B} (m : M A) (k : A -> M B) :
  quiet m -> (forall a, quiet (k a)) -> quiet (bind m k).
Proof.
  intros Hm Hk s. unfold bind.
  destruct (Hm s) as [Hsent Htr].
  destruct (m s) as [[a|e] s1]; cbn [snd] in *.
  - destruct (Hk a s1) as [Hsent' Htr']. split; congruence.
  - split; assumption.
Qed.

Lemma quiet_emit (ev : Event) : sent [ev] = [] -> quiet (emit ev).
Proof.
  intros Hev s. cbn [emit snd emit_event trace transporter].
  rewrite sent_app, Hev, app_nil_r. split; reflexivity.
Qed.

Lemma quiet_getString (section key : string) (value : option string) :
  quiet (getString section key value).
Proof. destruct value; [apply quiet_ret | apply quiet_throw]. Qed.

Lemma quiet_cache_get (key : string) : quiet (cache_get key).
Proof.
  intros s. unfold cache_get. destruct (cache s); cbn [snd]; [|split; reflexivity].
  cbn [emit_event trace transporter]. rewrite sent_app, app_nil_r. split; reflexivity.
Qed.

Lemma quiet_cache_set (key : string) (value : list string) (ttl : Z) :
  quiet (cache_set key value ttl).
Proof.
  intros s. unfold cache_set. destruct (cache s); cbn [snd]; [|split; reflexivity].
  cbn [emit_event set_cache trace transporter].
  rewrite sent_app, app_nil_r. split; reflexivity.
Qed.

Create HintDb quiet.
#[local] Hint Resolve quiet_ret quiet_throw quiet_ask quiet_getString
  quiet_cache_get quiet_cache_set : quiet.

Ltac quiet_step :=
  first
    [ apply quiet_bind; [|intros ?]
    | apply quiet_emit; reflexivity
    | solve [auto with quiet]
    | match goal with
      | |- quiet (if ?b then _ else _) => destruct b
      | |- quiet (match ?x with _ => _ end) => destruct x
      end ].

Lemma quiet_getBroadcastEmails (env : Env) (this : Processor) :
  quiet (getBroadcastEmails env this).
Proof.
  unfold getBroadcastEmails, auth_getOwnServiceCredentials,
    auth_getPluginRequestToken, catalog_getEntities.
  repeat quiet_step.
Qed.

Lemma quiet_getUserEmail (env : Env) (this : Processor) (entityRef : JsUser) :
  quiet (getUserEmail env this entityRef).
Proof.
  unfold getUserEmail, auth_getOwnServiceCredentials,
    auth_getPluginRequestToken, catalog_getEntityByRef.
  repeat quiet_step.
Qed.

Lemma quiet_getRecipientEmails (env : Env) (this : Processor)
    (n : Notification) (o : NotificationSendOptions) :
  quiet (getRecipientEmails env this n o).
Proof.
  unfold getRecipientEmails.
  destruct (broadcast_path n o);
    [apply quiet_getBroadcastEmails | apply quiet_getUserEmail].
Qed.

(** Getting the transport leaves the trace alone and, when it returns,
    the handle is memoized. *)
Lemma getTransporter_run (env : Env) (this : Processor) (s s1 : State)
    (t : Transporter) :
  getTransporter env this s = (Ok t, s1) ->
  trace s1 = trace s /\ transporter s1 = Some t.
Proof.
  unfold getTransporter.
  destruct (transporter s) as [t0|] eqn:Ht0.
  - intros [= <- <-]. split; [reflexivity | exact Ht0].
  - unfold bind, getString.
    destruct (transport (transportConfig this)) as [kind|]; cbn [ret throw];
      [|discriminate].
    repeat match goal with
           | |- context [if ?b then _ else _] => destruct b
           end;
      unfold ask, throw;
      repeat match goal with
             | |- context [match ?r with Ok _ => _ | Throw _ => _ end] =>
                 destruct r
             end;
      intros [= <- <-]; split; reflexivity.
Qed.

(** ** The orchestrator *)

(** C7.  When the transport is available and recipient resolution
    returns the empty set, [postProcess] logs, at info level, that the
    notification has no recipients, hands nothing to the transport and
    returns normally. *)
Theorem empty_recipients_skip (env : Env) (this : Processor)
    (n : Notification) (o : NotificationSendOptions)
    (s s1 s2 : State) (t : Transporter) :
  getTransporter env this s = (Ok t, s1) ->
  getRecipientEmails env this n o s1 = (Ok [], s2) ->
  postProcess env this n o s
    = (Ok tt,
       emit_event
         (LoggerInfo ("No email recipients found for notification: " ++ id n
                      ++ ", skipping")) s2)
  /\ sent (trace (snd (postProcess env this n o s))) = sent (trace s).
Proof.
  intros Htransport Hresolve.
  assert (Hrun : postProcess env this n o s
            = (Ok tt,
               emit_event
                 (LoggerInfo ("No email recipients found for notification: "
                              ++ id n ++ ", skipping")) s2)).
  { unfold postProcess, bind, try_catch. rewrite Htransport, Hresolve.
    reflexivity. }
  split; [exact Hrun|].
  rewrite Hrun. cbn [snd emit_event trace].
  rewrite sent_app, app_nil_r.
  destruct (quiet_getRecipientEmails env this n o s1) as [Hsent _].
  rewrite Hresolve in Hsent. cbn [snd] in Hsent. rewrite Hsent.
  destruct (getTransporter_run env this s s1 t Htransport) as [-> _].
  reflexivity.
Qed.

Lemma empty_recipients_skip_witness :
  fst (postProcess sample_env plain_processor
         (notify (JsRef "user:default/carol") "T" None None) to_entity (fresh true))
    = Ok tt
  /\ sent (trace (snd (postProcess sample_env plain_processor
                         (notify (JsRef "user:default/carol") "T" None None)
                         to_entity (fresh true))))
     = [].
Proof.
  destruct (empty_recipients_skip sample_env plain_processor
              (notify (JsRef "user:default/carol") "T" None None) to_entity
              (fresh true) (ready true)
              (snd (getUserEmail sample_env plain_processor
                      (JsRef "user:default/carol") (ready true)))
              {| transport_name := "smtp" |} eq_refl eq_refl)
    as (Hrun & Hsent).
  rewrite Hsent, Hrun. split; reflexivity.
Defined.

(** C8.  When the transport is available and recipient resolution
    throws, [postProcess] catches the error, logs it at error level,
    hands nothing to the transport and returns normally; the processor
    keeps its transport for the next notification. *)
Theorem resolution_failure_is_contained (env : Env) (this : Processor)
    (n : Notification) (o : NotificationSendOptions)
    (s s1 s2 : State) (t : Transporter) (e : JsError) :
  getTransporter env this s = (Ok t, s1) ->
  getRecipientEmails env this n o s1 = (Throw e, s2) ->
  postProcess env this n o s
    = (Ok tt,
       emit_event
         (LoggerError ("Failed to resolve recipient emails: " ++ error_toString e)) s2)
  /\ sent (trace (snd (postProcess env this n o s))) = sent (trace s)
  /\ transporter (snd (postProcess env this n o s)) = Some t.
Proof.
  intros Htransport Hresolve.
  assert (Hrun : postProcess env this n o s
            = (Ok tt,
               emit_event
                 (LoggerError ("Failed to resolve recipient emails: "
                               ++ error_toString e)) s2)).
  { unfold postProcess, bind, try_catch. rewrite Htransport, Hresolve.
    reflexivity. }
  split; [exact Hrun|].
  rewrite Hrun. cbn [snd emit_event trace transporter].
  rewrite sent_app, app_nil_r.
  destruct (quiet_getRecipientEmails env this n o s1) as [Hsent Htr].
  rewrite Hresolve in Hsent, Htr. cbn [snd] in Hsent, Htr.
  destruct (getTransporter_run env this s s1 t Htransport) as [Htrace Hhandle].
  rewrite Hsent, Htr, Htrace, Hhandle. split; reflexivity.
Qed.

Lemma resolution_failure_is_contained_witness :
  postProcess failing_auth_env plain_processor full_notification to_entity (fresh false)
    = (Ok tt,
       emit_event
         (LoggerError "Failed to resolve recipient emails: Error: no service credentials")
         (emit_event AuthOwnCredentials (ready false))).
Proof.
  destruct (resolution_failure_is_contained failing_auth_env plain_processor
              full_notification to_entity (fresh false) (ready false)
              (emit_event AuthOwnCredentials (ready false))
              {| transport_name := "smtp" |} (Error "no service credentials")
              eq_refl eq_refl)
    as (Hrun & _).
  exact Hrun.
Defined.

(** C9, as stated, fails when the [broadcastConfig] section is there but
    has no [receiver] key: the required key is read with [getString],
    and the resolution throws instead of returning the empty set. *)
Lemma receiver_key_unset_raises :
  broadcastConfig no_receiver_processor
    = Some {| receiver := None; receiverEmails := Some ["ops@example.com"] |}
  /\ ~ (fst (getBroadcastEmails sample_env no_receiver_processor (fresh true)) = Ok []).
Proof.
  split; [reflexivity|].
  intros H. vm_compute in H. discriminate H.
Qed.

(** C9 (amended).  When the [broadcastConfig] section is unset, a
    broadcast resolution behaves as with receiver mode none: it returns
    the empty set, without an error and without touching the cache, the
    auth service or the catalog. *)
Theorem broadcast_config_unset_is_none (env : Env) (this that : Processor)
    (config : BroadcastConfig) (s : State) :
  broadcastConfig this = None ->
  broadcastConfig that = Some config ->
  receiver config = Some "none" ->
  getBroadcastEmails env this s = (Ok [], s)
  /\ getBroadcastEmails env this s = getBroadcastEmails env that s.
Proof.
  intros Hunset Hset Hnone.
  unfold getBroadcastEmails. rewrite Hunset, Hset, Hnone.
  split; reflexivity.
Qed.

Lemma broadcast_config_unset_is_none_witness :
  getBroadcastEmails sample_env plain_processor (fresh true) = (Ok [], fresh true)
  /\ getBroadcastEmails sample_env none_processor (fresh true) = (Ok [], fresh true).
Proof.
  destruct (broadcast_config_unset_is_none sample_env plain_processor none_processor
              {| receiver := Some "none"; receiverEmails := None |} (fresh true)
              eq_refl eq_refl eq_refl)
    as (Hunset & Hsame).
  split; [exact Hunset | rewrite <- Hsame; exact Hunset].
Defined.

(** * Further properties *)

(** ** The cache in front of the catalog *)

Ltac run_resolution :=
  unfold auth_getOwnServiceCredentials, auth_getPluginRequestToken,
    catalog_getEntityByRef, catalog_getEntities, bind, emit, ask, cache_set, ret;
  cbn [clock emit_event cache set_cache].

Lemma getUserEmail_hit (env : Env) (this : Processor) (entityRef : JsUser)
    (s : State) (store : gmap string CacheEntry) (emails : list string) :
  cache s = Some store ->
  store_get (clock s) store (user_cache_key entityRef) = Some emails ->
  getUserEmail env this entityRef s
    = (Ok emails, emit_event (CacheGet (user_cache_key entityRef)) s).
Proof.
  intros Hcache Hhit. unfold getUserEmail, bind, cache_get.
  rewrite Hcache, Hhit. reflexivity.
Qed.

Lemma getUserEmail_miss (env : Env) (this : Processor) (entityRef : JsUser)
    (s : State) (store : gmap string CacheEntry) (credentials token : string)
    (entity : option UserEntity) :
  cache s = Some store ->
  store_get (clock s) store (user_cache_key entityRef) = None ->
  getOwnServiceCredentials env (clock s) = Ok credentials ->
  getPluginRequestToken env credentials "catalog" (clock s) = Ok token ->
  getEntityByRef env entityRef token (clock s) = Ok entity ->
  getUserEmail env this entityRef s
    = (Ok (user_emails entity),
       emit_event (CacheSet (user_cache_key entityRef) (user_emails entity) (cacheTtl this))
         (set_cache (store_set (clock s) store (user_cache_key entityRef)
                       (user_emails entity) (cacheTtl this))
            (emit_event (CatalogGetEntityByRef entityRef)
               (emit_event (AuthPluginToken "catalog")
                  (emit_event AuthOwnCredentials
                     (emit_event (CacheGet (user_cache_key entityRef)) s)))))).
Proof.
  intros Hcache Hmiss Hcred Htoken Hentity.
  unfold getUserEmail, bind, cache_get. rewrite Hcache, Hmiss.
  run_resolution. rewrite Hcred, Htoken, Hentity, Hcache. reflexivity.
Qed.

Lemma getBroadcastEmails_users_hit (env : Env) (this : Processor)
    (config : BroadcastConfig) (s : State) (store : gmap string CacheEntry)
    (emails : list string) :
  broadcastConfig this = Some config ->
  receiver config = Some "users" ->
  cache s = Some store ->
  store_get (clock s) store "user-emails:all" = Some emails ->
  getBroadcastEmails env this s = (Ok emails, emit_event (CacheGet "user-emails:all") s).
Proof.
  intros Hconfig Hreceiver Hcache Hhit.
  unfold getBroadcastEmails. rewrite Hconfig, Hreceiver.
  unfold getString, bind, ret. cbn [String.eqb Ascii.eqb Bool.eqb].
  unfold cache_get. rewrite Hcache, Hhit. reflexivity.
Qed.

Lemma getBroadcastEmails_users_miss (env : Env) (this : Processor)
    (config : BroadcastConfig) (s : State) (store : gmap string CacheEntry)
    (credentials token : string) (items : list UserEntity) :
  broadcastConfig this = Some config ->
  receiver config = Some "users" ->
  cache s = Some store ->
  store_get (clock s) store "user-emails:all" = None ->
  getOwnServiceCredentials env (clock s) = Ok credentials ->
  getPluginRequestToken env credentials "catalog" (clock s) = Ok token ->
  getEntities env token (clock s) = Ok items ->
  getBroadcastEmails env this s
    = (Ok (entity_emails items),
       emit_event (CacheSet "user-emails:all" (entity_emails items) (cacheTtl this))
         (set_cache (store_set (clock s) store "user-emails:all"
                       (entity_emails items) (cacheTtl this))
            (emit_event CatalogGetEntities
               (emit_event (AuthPluginToken "catalog")
                  (emit_event AuthOwnCredentials
                     (emit_event (CacheGet "user-emails:all") s)))))).
Proof.
  intros Hconfig Hreceiver Hcache Hmiss Hcred Htoken Hitems.
  unfold getBroadcastEmails. rewrite Hconfig, Hreceiver.
  unfold getString, bind, ret. cbn [String.eqb Ascii.eqb Bool.eqb].
  unfold cache_get. rewrite Hcache, Hmiss.
  run_resolution. rewrite Hcred, Htoken, Hitems, Hcache. reflexivity.
Qed.

Lemma store_get_set_live (now later : Z) (store : gmap string CacheEntry)
    (key : string) (value : list string) (ttl : Z) :
  later < now + ttl ->
  store_get later (store_set now store key value ttl) key = Some value.
Proof.
  intros Hlive. unfold store_get, store_set. rewrite lookup_insert_eq.
  cbn [entry_expires entry_value].
  destruct (Z.ltb_spec later (now + ttl)); [reflexivity | lia].
Qed.

Lemma store_get_set_expired (now later : Z) (store : gmap string CacheEntry)
    (key : string) (value : list string) (ttl : Z) :
  now + ttl <= later ->
  store_get later (store_set now store key value ttl) key = None.
Proof.
  intros Hexpired. unfold store_get, store_set. rewrite lookup_insert_eq.
  cbn [entry_expires entry_value].
  destruct (Z.ltb_spec later (now + ttl)); [lia | reflexivity].
Qed.

(** X1.  Whatever a targeted resolution gets from the catalog on a cache
    miss, it is served from the cache for the next [cacheTtl]
    milliseconds: a later resolution of the same identifier returns the
    same list after one cache read, with no call to the auth service or
    the catalog, whatever these would answer by then. *)
Theorem targeted_result_served_from_cache (env later_env : Env) (this : Processor)
    (entityRef : JsUser) (s : State) (store : gmap string CacheEntry)
    (credentials token : string) (entity : option UserEntity) (d : Z) :
  cache s = Some store ->
  store_get (clock s) store (user_cache_key entityRef) = None ->
  getOwnServiceCredentials env (clock s) = Ok credentials ->
  getPluginRequestToken env credentials "catalog" (clock s) = Ok token ->
  getEntityByRef env entityRef token (clock s) = Ok entity ->
  d < cacheTtl this ->
  fst (getUserEmail env this entityRef s) = Ok (user_emails entity)
  /\ getUserEmail later_env this entityRef
       (advance d (snd (getUserEmail env this entityRef s)))
     = (Ok (user_emails entity),
        emit_event (CacheGet (user_cache_key entityRef))
          (advance d (snd (getUserEmail env this entityRef s)))).
Proof.
  intros Hcache Hmiss Hcred Htoken Hentity Hd.
  rewrite (getUserEmail_miss env this entityRef s store credentials token entity
             Hcache Hmiss Hcred Htoken Hentity).
  cbn [fst snd]. split; [reflexivity|].
  eapply getUserEmail_hit; [reflexivity|].
  cbn [clock advance emit_event set_cache].
  apply store_get_set_live. lia.
Qed.

Lemma targeted_result_served_from_cache_witness :
  fst (getUserEmail failing_auth_env plain_processor (JsRef "user:default/alice")
         (advance 60000
            (snd (getUserEmail sample_env plain_processor
                    (JsRef "user:default/alice") (fresh true)))))
    = Ok ["alice@example.com"].
Proof.
  destruct (targeted_result_served_from_cache sample_env failing_auth_env
              plain_processor (JsRef "user:default/alice") (fresh true) ∅
              "plugin:notifications" "token" (Some alice) 60000
              eq_refl eq_refl eq_refl eq_refl eq_refl eq_refl)
    as (_ & Hlater).
  rewrite Hlater. reflexivity.
Defined.

(** X2.  A cache entry does not outlive its TTL: with a positive
    [cacheTtl], once more than [cacheTtl] milliseconds have passed since
    a targeted resolution filled the cache, the next resolution of the
    identifier asks the catalog again, returns what it answers now and
    stores that. *)
Theorem targeted_entry_expires (env later_env : Env) (this : Processor)
    (entityRef : JsUser) (s : State) (store : gmap string CacheEntry)
    (credentials token credentials' token' : string)
    (entity entity' : option UserEntity) (d : Z) :
  cache s = Some store ->
  store_get (clock s) store (user_cache_key entityRef) = None ->
  getOwnServiceCredentials env (clock s) = Ok credentials ->
  getPluginRequestToken env credentials "catalog" (clock s) = Ok token ->
  getEntityByRef env entityRef token (clock s) = Ok entity ->
  0 < cacheTtl this ->
  cacheTtl this < d ->
  getOwnServiceCredentials later_env (clock s + d) = Ok credentials' ->
  getPluginRequestToken later_env credentials' "catalog" (clock s + d) = Ok token' ->
  getEntityByRef later_env entityRef token' (clock s + d) = Ok entity' ->
  fst (getUserEmail later_env this entityRef
         (advance d (snd (getUserEmail env this entityRef s))))
    = Ok (user_emails entity')
  /\ directory_queries
       (trace (snd (getUserEmail later_env this entityRef
                      (advance d (snd (getUserEmail env this entityRef s))))))
     = (directory_queries (trace s)
        ++ [CatalogGetEntityByRef entityRef; CatalogGetEntityByRef entityRef])%list
  /\ last (trace (snd (getUserEmail later_env this entityRef
                          (advance d (snd (getUserEmail env this entityRef s))))))
     = Some (CacheSet (user_cache_key entityRef) (user_emails entity') (cacheTtl this)).
Proof.
  intros Hcache Hmiss Hcred Htoken Hentity Hpositive Hd Hcred' Htoken' Hentity'.
  rewrite (getUserEmail_miss env this entityRef s store credentials token entity
             Hcache Hmiss Hcred Htoken Hentity).
  cbn [snd].
  erewrite (getUserEmail_miss later_env this entityRef _ _ credentials' token' entity');
    [ | reflexivity
      | cbn [clock advance emit_event set_cache]; apply store_get_set_expired; lia
      | exact Hcred' | exact Htoken' | exact Hentity' ].
  cbn [fst snd]. split; [reflexivity|]. split.
  - cbn [trace emit_event set_cache advance].
    rewrite !directory_queries_app. cbn [directory_queries].
    rewrite !app_nil_r, <- app_assoc. reflexivity.
  - cbn [trace emit_event set_cache advance]. apply last_snoc.
Qed.

Lemma targeted_entry_expires_witness :
  fst (getUserEmail sample_env plain_processor (JsRef "user:default/alice")
         (advance 3600001
            (snd (getUserEmail sample_env plain_processor
                    (JsRef "user:default/alice") (fresh true)))))
    = Ok ["alice@example.com"]
  /\ directory_queries
       (trace (snd (getUserEmail sample_env plain_processor (JsRef "user:default/alice")
                      (advance 3600001
                         (snd (getUserEmail sample_env plain_processor
                                 (JsRef "user:default/alice") (fresh true)))))))
     = [CatalogGetEntityByRef (JsRef "user:default/alice");
        CatalogGetEntityByRef (JsRef "user:default/alice")].
Proof.
  destruct (targeted_entry_expires sample_env sample_env plain_processor
              (JsRef "user:default/alice") (fresh true) ∅
              "plugin:notifications" "token" "plugin:notifications" "token"
              (Some alice) (Some alice) 3600001
              eq_refl eq_refl eq_refl eq_refl eq_refl eq_refl eq_refl
              eq_refl eq_refl eq_refl)
    as (Hfirst & Hqueries & _).
  split; [exact Hfirst | exact Hqueries].
Defined.

(** X3.  A broadcast resolution in users mode that misses the cache
    returns the profile e-mails of the catalog's answer, without
    duplicates and without empty addresses, and serves that list from
    the cache for the next [cacheTtl] milliseconds: a later broadcast
    resolution returns it after one cache read and no other call. *)
Theorem broadcast_users_served_from_cache (env later_env : Env) (this : Processor)
    (config : BroadcastConfig) (s : State) (store : gmap string CacheEntry)
    (credentials token : string) (items : list UserEntity) (d : Z) :
  broadcastConfig this = Some config ->
  receiver config = Some "users" ->
  cache s = Some store ->
  store_get (clock s) store "user-emails:all" = None ->
  getOwnServiceCredentials env (clock s) = Ok credentials ->
  getPluginRequestToken env credentials "catalog" (clock s) = Ok token ->
  getEntities env token (clock s) = Ok items ->
  d < cacheTtl this ->
  fst (getBroadcastEmails env this s) = Ok (entity_emails items)
  /\ NoDup (entity_emails items)
  /\ ("" ∉ entity_emails items)
  /\ getBroadcastEmails later_env this (advance d (snd (getBroadcastEmails env this s)))
     = (Ok (entity_emails items),
        emit_event (CacheGet "user-emails:all")
          (advance d (snd (getBroadcastEmails env this s)))).
Proof.
  intros Hconfig Hreceiver Hcache Hmiss Hcred Htoken Hitems Hd.
  rewrite (getBroadcastEmails_users_miss env this config s store credentials token
             items Hconfig Hreceiver Hcache Hmiss Hcred Htoken Hitems).
  cbn [fst snd]. split; [reflexivity|].
  destruct (entity_emails_spec items) as [Hnodup Helem].
  split; [exact Hnodup|]. split.
  { intros Hin. apply Helem in Hin. destruct Hin as [Hne _]. apply Hne. reflexivity. }
  eapply getBroadcastEmails_users_hit; [exact Hconfig | exact Hreceiver | reflexivity |].
  cbn [clock advance emit_event set_cache].
  apply store_get_set_live. lia.
Qed.

Lemma broadcast_users_served_from_cache_witness :
  fst (getBroadcastEmails failing_auth_env users_processor
         (advance 60000 (snd (getBroadcastEmails sample_env users_processor (fresh true)))))
    = Ok ["alice@example.com"; "bob@example.com"].
Proof.
  destruct (broadcast_users_served_from_cache sample_env failing_auth_env
              users_processor {| receiver := Some "users"; receiverEmails := None |}
              (fresh true) ∅ "plugin:notifications" "token"
              [alice; carol; bob; alice] 60000
              eq_refl eq_refl eq_refl eq_refl eq_refl eq_refl eq_refl eq_refl)
    as (_ & _ & _ & Hlater).
  rewrite Hlater. reflexivity.
Defined.

(** X4.  In receiver mode config a broadcast resolution returns the
    configured [receiverEmails] as they are (the empty list when the key
    is unset) and leaves the state as it was: no cache read or write, no
    call to the auth service or the catalog, whatever the cache holds. *)
Theorem broadcast_config_mode_verbatim (env : Env) (this : Processor)
    (config : BroadcastConfig) (s : State) :
  broadcastConfig this = Some config ->
  receiver config = Some "config" ->
  getBroadcastEmails env this s
    = (Ok (match receiverEmails config with Some emails => emails | None => [] end), s).
Proof.
  intros Hconfig Hreceiver.
  unfold getBroadcastEmails. rewrite Hconfig, Hreceiver. reflexivity.
Qed.

Lemma broadcast_config_mode_verbatim_witness :
  getBroadcastEmails failing_auth_env config_processor (fresh true)
    = (Ok ["ops@example.com"; "dev@example.com"], fresh true).
Proof.
  exact (broadcast_config_mode_verbatim failing_auth_env config_processor
           {| receiver := Some "config";
              receiverEmails := Some ["ops@example.com"; "dev@example.com"] |}
           (fresh true) eq_refl eq_refl).
Defined.

Lemma store_set_other (now : Z) (store : gmap string CacheEntry)
    (key other : string) (value : list string) (ttl : Z) :
  other <> key -> store_set now store key value ttl !! other = store !! other.
Proof. intros Hne. unfold store_set. apply lookup_insert_ne. congruence. Qed.

(** X5.  A resolution writes at most one cache key, the one it read:
    ["user-emails:all"] on the broadcast path and the user's key on the
    targeted path.  Every other entry of the cache is as before,
    whatever the auth service and the catalog answer. *)
Theorem resolution_keeps_other_entries (env : Env) (this : Processor)
    (n : Notification) (o : NotificationSendOptions) (s : State)
    (store : gmap string CacheEntry) :
  cache s = Some store ->
  exists store' : gmap string CacheEntry,
    cache (snd (getRecipientEmails env this n o s)) = Some store'
    /\ forall key : string,
         key <> resolution_key n o -> store' !! key = store !! key.
Proof.
  intros Hcache. unfold getRecipientEmails, resolution_key.
  destruct (broadcast_path n o).
  - unfold getBroadcastEmails.
    destruct (broadcastConfig this) as [config|];
      [|exists store; split; [exact Hcache | reflexivity]].
    unfold getString, bind.
    destruct (receiver config) as [mode|]; cbn [ret throw];
      [|exists store; split; [exact Hcache | reflexivity]].
    repeat match goal with
           | |- context [if String.eqb mode ?k then _ else _] =>
               destruct (String.eqb mode k)
           end;
      try (exists store; split; [exact Hcache | reflexivity]).
    unfold cache_get. rewrite Hcache.
    destruct (store_get (clock s) store "user-emails:all");
      [exists store; split; [exact Hcache | reflexivity]|].
    run_resolution.
    destruct (getOwnServiceCredentials env (clock s)) as [credentials|e];
      [|exists store; split; [exact Hcache | reflexivity]].
    destruct (getPluginRequestToken env credentials "catalog" (clock s)) as [token|e];
      [|exists store; split; [exact Hcache | reflexivity]].
    destruct (getEntities env token (clock s)) as [items|e];
      [|exists store; split; [exact Hcache | reflexivity]].
    rewrite Hcache. eexists. split; [reflexivity|].
    intros key Hkey. apply store_set_other, Hkey.
  - unfold getUserEmail, bind, cache_get. rewrite Hcache.
    destruct (store_get (clock s) store (user_cache_key (user n)));
      [exists store; split; [exact Hcache | reflexivity]|].
    run_resolution.
    destruct (getOwnServiceCredentials env (clock s)) as [credentials|e];
      [|exists store; split; [exact Hcache | reflexivity]].
    destruct (getPluginRequestToken env credentials "catalog" (clock s)) as [token|e];
      [|exists store; split; [exact Hcache | reflexivity]].
    destruct (getEntityByRef env (user n) token (clock s)) as [entity|e];
      [|exists store; split; [exact Hcache | reflexivity]].
    rewrite Hcache. eexists. split; [reflexivity|].
    intros key Hkey. apply store_set_other, Hkey.
Qed.

Lemma resolution_keeps_other_entries_witness :
  exists store' : gmap string CacheEntry,
    cache (snd (getRecipientEmails sample_env plain_processor full_notification
                  to_entity (fresh true))) = Some store'
    /\ store' !! "user-emails:user:default/bob" = None.
Proof.
  destruct (resolution_keeps_other_entries sample_env plain_processor
              full_notification to_entity (fresh true) ∅ eq_refl)
    as (store' & Hstore & Hother).
  exists store'. split; [exact Hstore|].
  rewrite Hother; [reflexivity|]. vm_compute. discriminate.
Defined.

(** X6.  The cache key of the user identifier ["all"] is the key of the
    broadcast list.  After a broadcast resolution in users mode filled
    the cache, a targeted resolution for ["all"] within the TTL returns
    the whole broadcast list, without asking the catalog for that
    entity. *)
Theorem targeted_all_reads_broadcast_entry (env later_env : Env) (this : Processor)
    (config : BroadcastConfig) (s : State) (store : gmap string CacheEntry)
    (credentials token : string) (items : list UserEntity) (d : Z) :
  broadcastConfig this = Some config ->
  receiver config = Some "users" ->
  cache s = Some store ->
  store_get (clock s) store "user-emails:all" = None ->
  getOwnServiceCredentials env (clock s) = Ok credentials ->
  getPluginRequestToken env credentials "catalog" (clock s) = Ok token ->
  getEntities env token (clock s) = Ok items ->
  d < cacheTtl this ->
  getUserEmail later_env this (JsRef "all")
    (advance d (snd (getBroadcastEmails env this s)))
  = (Ok (entity_emails items),
     emit_event (CacheGet "user-emails:all")
       (advance d (snd (getBroadcastEmails env this s)))).
Proof.
  intros Hconfig Hreceiver Hcache Hmiss Hcred Htoken Hitems Hd.
  rewrite (getBroadcastEmails_users_miss env this config s store credentials token
             items Hconfig Hreceiver Hcache Hmiss Hcred Htoken Hitems).
  cbn [snd].
  eapply (getUserEmail_hit later_env this (JsRef "all")); [reflexivity|].
  cbn [clock advance emit_event set_cache].
  change (user_cache_key (JsRef "all")) with "user-emails:all".
  apply store_get_set_live. lia.
Qed.

Lemma targeted_all_reads_broadcast_entry_witness :
  fst (getUserEmail sample_env users_processor (JsRef "all")
         (advance 1 (snd (getBroadcastEmails sample_env users_processor (fresh true)))))
    = Ok ["alice@example.com"; "bob@example.com"].
Proof.
  rewrite (targeted_all_reads_broadcast_entry sample_env sample_env users_processor
             {| receiver := Some "users"; receiverEmails := None |}
             (fresh true) ∅ "plugin:notifications" "token"
             [alice; carol; bob; alice] 1
             eq_refl eq_refl eq_refl eq_refl eq_refl eq_refl eq_refl eq_refl).
  reflexivity.
Defined.

(** X16.  Only answers are cached, never failures: when a resolution
    throws (a required key is unset, the receiver mode is unknown, the
    auth service or the catalog rejects the call), the cache is exactly
    as it was before the call. *)
Theorem failed_resolution_is_not_cached (env : Env) (this : Processor)
    (n : Notification) (o : NotificationSendOptions) (s : State) (e : JsError) :
  fst (getRecipientEmails env this n o s) = Throw e ->
  cache (snd (getRecipientEmails env this n o s)) = cache s.
Proof.
  unfold getRecipientEmails.
  destruct (broadcast_path n o).
  - unfold getBroadcastEmails.
    destruct (broadcastConfig this) as [config|]; [|reflexivity].
    unfold getString, bind.
    destruct (receiver config) as [mode|]; cbn [ret throw]; [|reflexivity].
    repeat match goal with
           | |- context [if String.eqb mode ?k then _ else _] =>
               destruct (String.eqb mode k)
           end; try reflexivity.
    unfold cache_get.
    destruct (cache s) as [store|] eqn:Hcache;
      [destruct (store_get (clock s) store "user-emails:all")|];
      run_resolution; rewrite ?Hcache;
      try destruct (getOwnServiceCredentials env (clock s)) as [credentials|e1];
      try destruct (getPluginRequestToken env credentials "catalog" (clock s))
        as [token|e2];
      try destruct (getEntities env token (clock s)) as [items|e3];
      rewrite ?Hcache; cbn [fst snd cache emit_event];
      first [discriminate | intros _; exact Hcache].
  - unfold getUserEmail, bind, cache_get.
    destruct (cache s) as [store|] eqn:Hcache;
      [destruct (store_get (clock s) store (user_cache_key (user n)))|];
      run_resolution; rewrite ?Hcache;
      try destruct (getOwnServiceCredentials env (clock s)) as [credentials|e1];
      try destruct (getPluginRequestToken env credentials "catalog" (clock s))
        as [token|e2];
      try destruct (getEntityByRef env (user n) token (clock s)) as [entity|e3];
      rewrite ?Hcache; cbn [fst snd cache emit_event];
      first [discriminate | intros _; exact Hcache].
Qed.

Lemma failed_resolution_is_not_cached_witness :
  cache (snd (getRecipientEmails failing_auth_env plain_processor full_notification
                to_entity (fresh true)))
    = Some ∅.
Proof.
  exact (failed_resolution_is_not_cached failing_auth_env plain_processor
           full_notification to_entity (fresh true)
           (Error "no service credentials") eq_refl).
Defined.

(** ** The transport handle *)

(** X7.  The transport is built once: after a [postProcess] that got
    its transport, the processor holds that handle, and while it holds
    it [getTransporter] returns it without reading the configuration or
    calling a factory, whatever these would do by then. *)
Theorem transport_built_once (env later_env : Env) (this : Processor)
    (n : Notification) (o : NotificationSendOptions) (s s1 : State)
    (t : Transporter) :
  getTransporter env this s = (Ok t, s1) ->
  transporter (snd (postProcess env this n o s)) = Some t
  /\ getTransporter later_env this (snd (postProcess env this n o s))
     = (Ok t, snd (postProcess env this n o s)).
Proof.
  intros Htransport.
  destruct (getTransporter_run env this s s1 t Htransport) as [_ Hhandle].
  assert (Hkept : transporter (snd (postProcess env this n o s)) = Some t).
  { unfold postProcess, bind, try_catch. rewrite Htransport.
    destruct (quiet_getRecipientEmails env this n o s1) as [_ Hsame].
    destruct (getRecipientEmails env this n o s1) as [[emails|e] s2];
      cbn [snd] in Hsame; rewrite Hhandle in Hsame.
    - cbn [ret]. destruct emails as [|address emails]; cbn [is_empty].
      + exact Hsame.
      + destruct (templateRenderer this);
          [unfold sendTemplateEmail | unfold sendPlainEmail];
          match goal with
          | |- transporter (snd (sendMails _ _ ?options ?emails _)) = _ =>
              destruct (keeps_sendMails env this options emails s2)
                as (_ & _ & -> & _); exact Hsame
          end.
    - exact Hsame. }
  split; [exact Hkept|].
  unfold getTransporter. rewrite Hkept. reflexivity.
Qed.

Lemma transport_built_once_witness :
  transporter (snd (postProcess sample_env plain_processor full_notification
                      to_entity (fresh true)))
    = Some {| transport_name := "smtp" |}.
Proof.
  destruct (transport_built_once sample_env failing_auth_env plain_processor
              full_notification to_entity (fresh true) (ready true)
              {| transport_name := "smtp" |} eq_refl)
    as (Hkept & _).
  exact Hkept.
Defined.

(** X8.  A transport kind other than smtp, ses and sendmail is fatal to
    the call: on a processor without a transport, [postProcess] throws
    "Unsupported transport: kind" and does nothing else: no recipient is
    resolved, nothing is logged, nothing is sent. *)
Theorem unsupported_transport_is_thrown (env : Env) (this : Processor)
    (n : Notification) (o : NotificationSendOptions) (s : State) (kind : string) :
  transporter s = None ->
  transport (transportConfig this) = Some kind ->
  kind <> "smtp" -> kind <> "ses" -> kind <> "sendmail" ->
  postProcess env this n o s
    = (Throw (Error ("Unsupported transport: " ++ kind)), s).
Proof.
  intros Hnone Hkind Hsmtp Hses Hsendmail.
  unfold postProcess, bind, getTransporter. rewrite Hnone, Hkind.
  unfold getString, bind, ret.
  destruct (String.eqb_spec kind "smtp"); [contradiction|].
  destruct (String.eqb_spec kind "ses"); [contradiction|].
  destruct (String.eqb_spec kind "sendmail"); [contradiction|].
  reflexivity.
Qed.

Lemma unsupported_transport_is_thrown_witness :
  postProcess sample_env pigeon_processor full_notification to_entity (fresh true)
    = (Throw (Error "Unsupported transport: pigeon"), fresh true).
Proof.
  exact (unsupported_transport_is_thrown sample_env pigeon_processor
           full_notification to_entity (fresh true) "pigeon"
           eq_refl eq_refl ltac:(discriminate) ltac:(discriminate)
           ltac:(discriminate)).
Defined.

(** ** What a call to [postProcess] does *)

(** X9.  With the Plain strategy and a finite [concurrencyLimit] and
    [throttleInterval], once the transport is there [postProcess]
    returns normally in every case: whatever the cache holds, whatever
    the auth service, the catalog and the transport answer or throw, and
    in whatever order the sends run. *)
Theorem postProcess_returns_normally (env : Env) (this : Processor)
    (n : Notification) (o : NotificationSendOptions) (s s1 : State)
    (t : Transporter) :
  templateRenderer this = None ->
  is_finite (concurrencyLimit this) = true ->
  is_finite (throttleInterval this) = true ->
  getTransporter env this s = (Ok t, s1) ->
  fst (postProcess env this n o s) = Ok tt.
Proof.
  intros Hplain Hlimit Hinterval Htransport.
  destruct (getTransporter_run env this s s1 t Htransport) as [_ Hhandle].
  unfold postProcess, bind, try_catch. rewrite Htransport.
  destruct (quiet_getRecipientEmails env this n o s1) as [_ Hsame].
  destruct (getRecipientEmails env this n o s1) as [[emails|e] s2];
    cbn [snd] in Hsame; rewrite Hhandle in Hsame; [|reflexivity].
  cbn [ret]. destruct emails as [|address emails]; cbn [is_empty]; [reflexivity|].
  rewrite Hplain. unfold sendPlainEmail.
  apply (sendMails_run env this _ _ s2 t Hlimit Hinterval Hsame).
Qed.

Lemma postProcess_returns_normally_witness :
  fst (postProcess failing_auth_env users_processor broadcast_notification
         to_broadcast (fresh true))
    = Ok tt.
Proof.
  exact (postProcess_returns_normally failing_auth_env users_processor
           broadcast_notification to_broadcast (fresh true) (ready true)
           {| transport_name := "smtp" |} eq_refl eq_refl eq_refl eq_refl).
Defined.

(** X10.  With the Plain strategy and a finite [concurrencyLimit] and
    [throttleInterval], the messages of one [postProcess] are the plain
    message once for each resolved address, differing only in their [to]
    field, in some order; nothing else is handed to the transport. *)
Theorem postProcess_sends_to_resolved (env : Env) (this : Processor)
    (n : Notification) (o : NotificationSendOptions) (s s1 s2 : State)
    (t : Transporter) (emails : list string) :
  templateRenderer this = None ->
  is_finite (concurrencyLimit this) = true ->
  is_finite (throttleInterval this) = true ->
  getTransporter env this s = (Ok t, s1) ->
  getRecipientEmails env this n o s1 = (Ok emails, s2) ->
  exists messages : list MailOptions,
    sent (trace (snd (postProcess env this n o s))) = (sent (trace s) ++ messages)%list
    /\ messages ≡ₚ map (with_to (plainMailOptions this n)) emails.
Proof.
  intros Hplain Hlimit Hinterval Htransport Hresolve.
  destruct (getTransporter_run env this s s1 t Htransport) as [Htrace Hhandle].
  destruct (quiet_getRecipientEmails env this n o s1) as [Hsent Hsame].
  rewrite Hresolve in Hsent, Hsame. cbn [snd] in Hsent, Hsame.
  rewrite Hhandle in Hsame. rewrite Htrace in Hsent.
  unfold postProcess, bind, try_catch. rewrite Htransport, Hresolve.
  cbn [ret]. destruct emails as [|address emails]; cbn [is_empty].
  - exists []. cbn [logger_info emit snd emit_event trace map].
    rewrite sent_app, Hsent. split; reflexivity.
  - rewrite Hplain. unfold sendPlainEmail.
    destruct (sendMails_run env this (plainMailOptions this n) (address :: emails)
                s2 t Hlimit Hinterval Hsame)
      as (_ & events & Hevents & Hperm).
    exists (sent events). rewrite Hevents, sent_app, Hsent.
    split; [reflexivity | exact Hperm].
Qed.

Lemma postProcess_sends_to_resolved_witness :
  exists messages : list MailOptions,
    sent (trace (snd (postProcess prompt_env config_processor broadcast_notification
                        to_broadcast (fresh true))))
      = messages
    /\ map mail_to messages ≡ₚ [Some "ops@example.com"; Some "dev@example.com"].
Proof.
  destruct (postProcess_sends_to_resolved prompt_env config_processor
              broadcast_notification to_broadcast (fresh true) (ready true) (ready true)
              {| transport_name := "smtp" |} ["ops@example.com"; "dev@example.com"]
              eq_refl eq_refl eq_refl eq_refl eq_refl)
    as (messages & Hsent & Hperm).
  exists messages. split; [exact Hsent|].
  rewrite Hperm. reflexivity.
Defined.

(** X11.  Recipient resolution never hands a message to the transport
    and never replaces the transport handle, on either path and whether
    it returns or throws. *)
Theorem resolution_never_sends (env : Env) (this : Processor)
    (n : Notification) (o : NotificationSendOptions) (s : State) :
  sent (trace (snd (getRecipientEmails env this n o s))) = sent (trace s)
  /\ transporter (snd (getRecipientEmails env this n o s)) = transporter s.
Proof. apply quiet_getRecipientEmails. Qed.

(** X12.  Dispatch stays away from the directory and the cache: sending
    a message to a list of recipients makes no catalog query and leaves
    the cache and the transport handle as they were. *)
Theorem dispatch_leaves_directory_and_cache (env : Env) (this : Processor)
    (options : MailOptions) (emails : list string) (s : State) (t : Transporter) :
  transporter s = Some t ->
  directory_queries (trace (snd (sendMails env this options emails s)))
    = directory_queries (trace s)
  /\ cache (snd (sendMails env this options emails s)) = cache s
  /\ transporter (snd (sendMails env this options emails s)) = Some t.
Proof.
  intros Ht.
  destruct (keeps_sendMails env this options emails s)
    as (_ & Hcache & Hhandle & Hqueries).
  rewrite Hqueries, Hcache, Hhandle. auto.
Qed.

Lemma dispatch_leaves_directory_and_cache_witness :
  cache (snd (sendMails sample_env plain_processor
                (plainMailOptions plain_processor full_notification)
                ["alice@example.com"; "bob@example.com"] (ready true)))
    = Some ∅.
Proof.
  destruct (dispatch_leaves_directory_and_cache sample_env plain_processor
              (plainMailOptions plain_processor full_notification)
              ["alice@example.com"; "bob@example.com"] (ready true)
              {| transport_name := "smtp" |} eq_refl)
    as (_ & Hcache & _).
  exact Hcache.
Defined.

(** X13.  Without a [broadcastConfig] section, a notification on the
    broadcast path reaches nobody: once the transport is there,
    [postProcess] only logs that it found no recipients and returns,
    with no cache, auth, catalog or transport call. *)
Theorem broadcast_dropped_without_config (env : Env) (this : Processor)
    (n : Notification) (o : NotificationSendOptions) (s s1 : State)
    (t : Transporter) :
  broadcastConfig this = None ->
  broadcast_path n o = true ->
  getTransporter env this s = (Ok t, s1) ->
  postProcess env this n o s
    = (Ok tt,
       emit_event
         (LoggerInfo ("No email recipients found for notification: " ++ id n
                      ++ ", skipping")) s1).
Proof.
  intros Hunset Hpath Htransport.
  unfold postProcess, bind, try_catch, getRecipientEmails, getBroadcastEmails.
  rewrite Htransport, Hpath, Hunset. reflexivity.
Qed.

Lemma broadcast_dropped_without_config_witness :
  trace (snd (postProcess sample_env plain_processor broadcast_notification
                to_entity (fresh true)))
    = [LoggerInfo "No email recipients found for notification: n-1, skipping"].
Proof.
  rewrite (broadcast_dropped_without_config sample_env plain_processor
             broadcast_notification to_entity (fresh true) (ready true)
             {| transport_name := "smtp" |} eq_refl eq_refl eq_refl).
  reflexivity.
Defined.

(** X14.  A receiver mode other than none, config and users does not
    stop the processor: on the broadcast path the resolution throws
    "Unsupported broadcast receiver: mode", and once the transport is
    there [postProcess] catches it, logs it as a failure to resolve the
    recipients and returns normally, with no cache, auth, catalog or
    transport call. *)
Theorem unsupported_receiver_is_logged (env : Env) (this : Processor)
    (config : BroadcastConfig) (mode : string)
    (n : Notification) (o : NotificationSendOptions) (s s1 : State)
    (t : Transporter) :
  broadcastConfig this = Some config ->
  receiver config = Some mode ->
  mode <> "none" -> mode <> "config" -> mode <> "users" ->
  broadcast_path n o = true ->
  getTransporter env this s = (Ok t, s1) ->
  fst (getBroadcastEmails env this s1)
    = Throw (Error ("Unsupported broadcast receiver: " ++ mode))
  /\ postProcess env this n o s
     = (Ok tt,
        emit_event
          (LoggerError ("Failed to resolve recipient emails: "
                        ++ "Error: Unsupported broadcast receiver: " ++ mode)) s1).
Proof.
  intros Hconfig Hmode Hnone Hcfg Husers Hpath Htransport.
  assert (Hthrow : getBroadcastEmails env this s1
            = (Throw (Error ("Unsupported broadcast receiver: " ++ mode)), s1)).
  { unfold getBroadcastEmails. rewrite Hconfig, Hmode.
    unfold getString, bind, ret.
    destruct (String.eqb_spec mode "none"); [contradiction|].
    destruct (String.eqb_spec mode "config"); [contradiction|].
    destruct (String.eqb_spec mode "users"); [contradiction|].
    reflexivity. }
  split; [rewrite Hthrow; reflexivity|].
  unfold postProcess, bind, try_catch, getRecipientEmails.
  rewrite Htransport, Hpath, Hthrow. reflexivity.
Qed.

Lemma unsupported_receiver_is_logged_witness :
  postProcess sample_env slack_processor broadcast_notification to_broadcast (fresh true)
    = (Ok tt,
       emit_event
         (LoggerError
            "Failed to resolve recipient emails: Error: Unsupported broadcast receiver: slack")
         (ready true)).
Proof.
  destruct (unsupported_receiver_is_logged sample_env slack_processor
              {| receiver := Some "slack"; receiverEmails := None |} "slack"
              broadcast_notification to_broadcast (fresh true) (ready true)
              {| transport_name := "smtp" |}
              eq_refl eq_refl ltac:(discriminate) ltac:(discriminate)
              ltac:(discriminate) eq_refl eq_refl)
    as (_ & Hrun).
  exact Hrun.
Defined.

(** ** Construction *)

(** X15.  The constructor succeeds only on a configuration that has the
    e-mail section with its [transport] section and its [sender]; the
    processor then takes [replyTo] and [broadcastConfig] as configured
    and falls back to 2 for [concurrencyLimit], 100 ms for
    [throttleInterval] and 3 600 000 ms for [cache.ttl] when the key is
    unset.  A configured limit is kept as it is, zero included. *)
Theorem constructor_required_and_defaults (root : option EmailProcessorConfig)
    (renderer : option NotificationTemplateRenderer) (p : Processor) :
  constructor root renderer = Ok p ->
  exists section : EmailProcessorConfig,
    root = Some section
    /\ cfg_transport section = Some (transportConfig p)
    /\ cfg_sender section = Some (sender p)
    /\ replyTo p = cfg_replyTo section
    /\ broadcastConfig p = cfg_broadcastConfig section
    /\ templateRenderer p = renderer
    /\ concurrencyLimit p
       = match cfg_concurrencyLimit section with Some limit => limit | None => 2 end
    /\ (cfg_throttleInterval section = None -> throttleInterval p = 100)
    /\ (cfg_cache_ttl section = None -> cacheTtl p = 3600000).
Proof.
  unfold constructor. intros Hok.
  destruct root as [section|]; [|discriminate Hok].
  exists section. split; [reflexivity|].
  destruct (cfg_transport section) as [transportSection|]; [|discriminate Hok].
  destruct (cfg_sender section) as [from|]; [|discriminate Hok].
  destruct (cfg_throttleInterval section) as [[interval|e]|];
    cbn [duration_or] in Hok; try discriminate Hok;
    destruct (cfg_cache_ttl section) as [[ttl|e']|];
    cbn [duration_or] in Hok; try discriminate Hok;
    injection Hok as <-; cbn;
    repeat split; intros; congruence.
Qed.

Lemma constructor_required_and_defaults_witness :
  exists p : Processor,
    constructor (Some minimal_config) None = Ok p
    /\ concurrencyLimit p = 2 /\ throttleInterval p = 100 /\ cacheTtl p = 3600000.
Proof.
  eexists. split; [reflexivity|].
  destruct (constructor_required_and_defaults (Some minimal_config) None _ eq_refl)
    as (section & Hroot & _ & _ & _ & _ & _ & Hlimit & Hinterval & Httl).
  injection Hroot as <-.
  split; [exact Hlimit|]. split; [apply Hinterval | apply Httl]; reflexivity.
Defined.
